(** * Greenhouse irrigation controller: a shallow embedding of [cpp.cpp]

    The sketch runs on an ESP32: [int] and [long] are 32-bit two's
    complement, [unsigned long] is 32-bit, [float] values are widened to
    [double] before they are formatted.  Integers are modelled in [Z] with
    the wrap-around written out, sensor floats as primitive binary64
    floats, strings as [string] (sequences of bytes). *)

From Stdlib Require Import ZArith List Bool Lia.
From Stdlib Require Import Ascii String.
From Stdlib Require Import DecimalString DecimalPos DecimalZ.
From Stdlib Require Import PrimFloat FloatOps SpecFloat Uint63.
From Stdlib Require Import FloatAxioms.
Import ListNotations.

Open Scope string_scope.
Open Scope Z_scope.

(** ** Machine integers *)

Module Int32.

Definition modulus : Z := 2 ^ 32.
Definition half_modulus : Z := 2 ^ 31.
Definition max_signed : Z := half_modulus - 1.
Definition min_signed : Z := - half_modulus.

(** Two's-complement reduction of a mathematical integer to [int]/[long]. *)
Definition wrap (z : Z) : Z := (z + half_modulus) mod modulus - half_modulus.

(** Reduction to [unsigned long]. *)
Definition uwrap (z : Z) : Z := z mod modulus.

Definition in_range (z : Z) : Prop := min_signed <= z <= max_signed.

End Int32.

(** ** Compile-time constants (cpp.cpp, lines 18-46) *)

Definition SOIL_PIN : Z := 34.
Definition RELAY_PIN : Z := 25.
Definition WATER_PIN : Z := 33.

Definition DRY_VAL : Z := 4095.
Definition WET_VAL : Z := 1200.
Definition WATER_SENSOR_THRESHOLD : Z := 1000.
Definition INVERT_WATER_LOGIC : bool := false.

Definition LOOP_DELAY : Z := 2000.
Definition PUMP_SAFETY_DELAY : Z := 500.

(** ** Arduino core helpers used by the sketch *)

Module Arduino.

(** Modelled from the spec: [map] belongs to the Arduino core, not to the
    sources.  The spec (4.1) describes it as the linear map of a value from
    one range to another; the core computes it in [long] arithmetic as
    [(x - in_min) * (out_max - out_min) / (in_max - in_min) + out_min],
    with C's division that truncates toward zero. *)
Definition map (x in_min in_max out_min out_max : Z) : Z :=
  let delta := Int32.wrap (x - in_min) in
  let rise := Int32.wrap (out_max - out_min) in
  let run := Int32.wrap (in_max - in_min) in
  Int32.wrap (Int32.wrap (Z.quot (Int32.wrap (delta * rise)) run) + out_min).

(** Modelled from the spec: [constrain] is a macro of the Arduino core,
    [((amt)<(low)?(low):((amt)>(high)?(high):(amt)))]; the spec (4.1) calls
    it clamping. *)
Definition constrain (amt low high : Z) : Z :=
  if amt <? low then low else if amt >? high then high else amt.

End Arduino.

(** Soil percentage of a raw sample (cpp.cpp, lines 132-133). *)
Definition soil_percent (rawSoil : Z) : Z :=
  let soilPct := Arduino.map rawSoil DRY_VAL WET_VAL 0 100 in
  Arduino.constrain soilPct 0 100.


(** ** Strings of the Arduino core *)

Module WString.

(** Modelled from the spec: [String(int)] belongs to the Arduino core; it
    renders the value in decimal, with a leading minus sign when negative
    (spec 6: the payload is an ASCII string of decimal fields). *)
Definition of_int (n : Z) : string := NilZero.string_of_int (Z.to_int n).

Definition isspace (c : ascii) : bool :=
  let n := N_of_ascii c in
  ((n =? 32) || ((9 <=? n) && (n <=? 13)))%N.

Definition isdigit (c : ascii) : bool :=
  let n := N_of_ascii c in
  ((48 <=? n) && (n <=? 57))%N.

Definition digit_value (c : ascii) : Z := Z.of_N (N_of_ascii c) - 48.

Fixpoint skip_spaces (s : string) : string :=
  match s with
  | String c s' => if isspace c then skip_spaces s' else s
  | EmptyString => s
  end.

(** Value of the longest prefix of decimal digits, accumulated left to
    right from [acc]. *)
Fixpoint digits_value (acc : Z) (s : string) : Z :=
  match s with
  | String c s' =>
      if isdigit c then digits_value (10 * acc + digit_value c) s' else acc
  | EmptyString => acc
  end.

Definition saturate (z : Z) : Z :=
  if z <? Int32.min_signed then Int32.min_signed
  else if z >? Int32.max_signed then Int32.max_signed
  else z.

(** The optional sign in front of the digits. *)
Definition strip_sign (s : string) : bool * string :=
  match s with
  | String c r =>
      if Ascii.eqb c "-" then (true, r)
      else if Ascii.eqb c "+" then (false, r)
      else (false, s)
  | EmptyString => (false, s)
  end.

(** Modelled from the spec: [String::toInt] belongs to the Arduino core,
    which hands the character buffer to the C library's [atol].  The spec
    (4.5, 6) says the payload is parsed as an ASCII decimal integer and
    that malformed input yields no update.  [atol] skips leading white
    space, accepts one optional sign, reads decimal digits up to the first
    other character, yields 0 when there is no digit, and saturates at the
    bounds of [long]. *)
Definition toInt (s : string) : Z :=
  let s1 := skip_spaces s in
  let '(negative, s2) := strip_sign s1 in
  let v := digits_value 0 s2 in
  saturate (if negative then - v else v).

(** [(int8_t)number]: truncation toward zero of a finite double, reduced
    to eight bits. *)
Definition trunc_int8 (x : float) : Z :=
  let t :=
    match Prim2SF x with
    | S754_finite sgn m e =>
        let mag := if 0 <=? e then Z.pos m * 2 ^ e
                   else Z.shiftr (Z.pos m) (- e) in
        if sgn then - mag else mag
    | _ => 0
    end in
  (t + 128) mod 256 - 128.

(** The [int8_t] digit as a double again, for [number -= digit]. *)
Definition float_of_digit (d : Z) : float :=
  if d <? 0 then (- PrimFloat.of_uint63 (Uint63.of_Z (- d)))%float
  else PrimFloat.of_uint63 (Uint63.of_Z d).

Definition ten : float := 10%float.

Fixpoint rounding_divisor (prec : nat) (r : float) : float :=
  match prec with
  | O => r
  | S p => rounding_divisor p (r * ten)%float
  end.

(** The search for the magnitude: [while (number >= 10.0 * tenpow)].  A
    finite double is below [10^309], so 400 rounds always suffice. *)
Fixpoint magnitude (fuel : nat) (number tenpow : float) (digitcount : nat)
  : float * nat :=
  match fuel with
  | O => (tenpow, digitcount)
  | S fuel' =>
      if (ten * tenpow <=? number)%float
      then magnitude fuel' number (tenpow * ten)%float (S digitcount)
      else (tenpow, digitcount)
  end.

(** [(char)('0' | digit)]. *)
Definition or_zero_char (digit : Z) : ascii :=
  ascii_of_N (Z.to_N ((Z.lor 48 digit) mod 256)).

(** The digit loop: [while (digitcount-- > 0)]; [digitcount] is the value
    before the decrement. *)
Fixpoint emit_digits (digitcount prec : nat) (number : float) : string :=
  match digitcount with
  | O => EmptyString
  | S rest =>
      let digit0 := trunc_int8 number in
      let digit := if digit0 >? 9 then 9 else digit0 in
      let c := or_zero_char digit in
      let tail :=
        emit_digits rest prec ((number - float_of_digit digit) * ten)%float in
      if (Nat.eqb rest prec && negb (Nat.eqb prec 0))%bool
      then String c (String "."%char tail)
      else String c tail
  end.

Fixpoint spaces (n : nat) : string :=
  match n with
  | O => EmptyString
  | S k => String " "%char (spaces k)
  end.

(** Modelled from the spec: [dtostrf] belongs to the Arduino core for the
    ESP32.  The spec (4.5) asks for the value with a fixed number of
    decimals; the core rounds half up by adding [1 / (2 * 10^prec)], pads
    on the left to [width], and writes [nan] or [inf] for the special
    values. *)
Definition dtostrf (number : float) (width : Z) (prec : nat) : string :=
  if PrimFloat.is_nan number then "nan"
  else if PrimFloat.is_infinity number then "inf"
  else
    let fillme := if Nat.eqb prec 0 then width
                  else width - (Z.of_nat prec + 1) in
    let negative := (number <? 0)%float in
    let fillme := if negative then fillme - 1 else fillme in
    let number := if negative then (- number)%float else number in
    let rounding := (1 / rounding_divisor prec 2)%float in
    let number := (number + rounding)%float in
    let '(tenpow, digitcount) := magnitude 400 number 1%float 1 in
    let number := (number / tenpow)%float in
    let fillme := fillme - Z.of_nat digitcount in
    (spaces (Z.to_nat fillme)
     ++ (if negative then "-" else EmptyString)
     ++ emit_digits (digitcount + prec) prec number)%string.

(** Modelled from the spec: [String(float, decimalPlaces)] belongs to the
    Arduino core; it is [dtostrf(value, decimalPlaces + 2, decimalPlaces)]
    (spec 4.5: temperature with one decimal, humidity with none). *)
Definition of_float (value : float) (decimalPlaces : nat) : string :=
  dtostrf value (Z.of_nat decimalPlaces + 2) decimalPlaces.

End WString.

(** ** Global state of the sketch (cpp.cpp, lines 43-53) *)

Record State : Type := mkState {
  autoWaterThreshold : Z;
  lastLoopTime : Z;
  temp : float;
  hum : float;
  soilPct : Z;
  waterLevelRaw : Z;
  waterOk : bool;
  pumpOn : bool
}.

(** The globals as initialised; [setup] (lines 100-117) brings up the
    pins, the display and the network and leaves them as they are. *)
Definition init_state : State :=
  {| autoWaterThreshold := 30; lastLoopTime := 0;
     temp := 0%float; hum := 0%float;
     soilPct := 0; waterLevelRaw := 0; waterOk := false; pumpOn := false |}.

Definition set_autoWaterThreshold (v : Z) (s : State) : State :=
  mkState v (lastLoopTime s) (temp s) (hum s) (soilPct s) (waterLevelRaw s)
    (waterOk s) (pumpOn s).
Definition set_lastLoopTime (v : Z) (s : State) : State :=
  mkState (autoWaterThreshold s) v (temp s) (hum s) (soilPct s)
    (waterLevelRaw s) (waterOk s) (pumpOn s).
Definition set_temp (v : float) (s : State) : State :=
  mkState (autoWaterThreshold s) (lastLoopTime s) v (hum s) (soilPct s)
    (waterLevelRaw s) (waterOk s) (pumpOn s).
Definition set_hum (v : float) (s : State) : State :=
  mkState (autoWaterThreshold s) (lastLoopTime s) (temp s) v (soilPct s)
    (waterLevelRaw s) (waterOk s) (pumpOn s).
Definition set_soilPct (v : Z) (s : State) : State :=
  mkState (autoWaterThreshold s) (lastLoopTime s) (temp s) (hum s) v
    (waterLevelRaw s) (waterOk s) (pumpOn s).
Definition set_waterLevelRaw (v : Z) (s : State) : State :=
  mkState (autoWaterThreshold s) (lastLoopTime s) (temp s) (hum s) (soilPct s)
    v (waterOk s) (pumpOn s).
Definition set_waterOk (v : bool) (s : State) : State :=
  mkState (autoWaterThreshold s) (lastLoopTime s) (temp s) (hum s) (soilPct s)
    (waterLevelRaw s) v (pumpOn s).
Definition set_pumpOn (v : bool) (s : State) : State :=
  mkState (autoWaterThreshold s) (lastLoopTime s) (temp s) (hum s) (soilPct s)
    (waterLevelRaw s) (waterOk s) v.

(** ** Observable effects *)

Inductive Level : Type := LOW | HIGH.

(** What the status display is asked to render on a tick (lines 163-168);
    the rendering itself is left to the display driver. *)
Record Snapshot : Type := mkSnapshot {
  shownSoil : Z;
  shownThreshold : Z;
  shownTemp : float;
  shownWaterRaw : Z;
  shownPump : bool
}.

Inductive Event : Type :=
| SerialPrint (text : string)
| MqttConnect
| MqttSubscribe (topic : string)
| DhtReadTemperature
| DhtReadHumidity
| AnalogRead (pin : Z)
| DigitalWrite (pin : Z) (level : Level)
| Delay (ms : Z)
| DisplayShow (snap : Snapshot)
| MqttPublish (topic payload : string).

(** What the outside world answers during one call of [loop]. *)
Record Env : Type := mkEnv {
  connectedLoop : bool;       (* client.connected(), line 121 *)
  connectedReconnect : bool;  (* client.connected(), line 87 *)
  connectResult : bool;       (* client.connect(...), line 89 *)
  clientState : Z;            (* client.state(), line 94 *)
  inbound : list (string * string); (* messages handed over by client.loop() *)
  millisCheck : Z;            (* millis(), line 126 *)
  millisStamp : Z;            (* millis(), line 127 *)
  dhtTemperature : float;     (* dht.readTemperature() *)
  dhtHumidity : float;        (* dht.readHumidity() *)
  adcSoil : Z;                (* analogRead(SOIL_PIN) *)
  adcWater : Z;               (* analogRead(WATER_PIN) *)
  connectedPublish : bool     (* client.connected(), line 173 *)
}.

(** ** A state monad that logs effects *)

Definition M (A : Type) : Type := State -> A * State * list Event.

Definition ret {A : Type} (a : A) : M A := fun s => (a, s, []).

Definition bind {A B : Type} (m : M A) (k : A -> M B) : M B :=
  fun s =>
    let '(a, s1, t1) := m s in
    let '(b, s2, t2) := k a s1 in
    (b, s2, (t1 ++ t2)%list).

Definition get : M State := fun s => (s, s, []).
Definition modify (f : State -> State) : M unit := fun s => (tt, f s, []).
Definition emit (e : Event) : M unit := fun s => (tt, s, [e]).

Definition state_of {A : Type} (r : A * State * list Event) : State :=
  snd (fst r).
Definition trace_of {A : Type} (r : A * State * list Event) : list Event :=
  snd r.

Declare Scope monad_scope.
Delimit Scope monad_scope with monad.
Notation "x <- m ;; k" := (bind m (fun x => k))
  (at level 61, m at next level, right associativity) : monad_scope.
Notation "m ;; k" := (bind m (fun _ => k))
  (at level 61, right associativity) : monad_scope.
Open Scope monad_scope.

(** ** The sketch *)

Definition CONTROL_TOPIC : string :=
  "ТВОЙ_AIO_USERNAME/feeds/smartgarden_control".
Definition DATA_TOPIC : string :=
  "ТВОЙ_AIO_USERNAME/feeds/smartgarden_data".

(** The line printed by [Serial.println(text)]. *)
Definition line (text : string) : string :=
  (text ++ String "013" (String "010" EmptyString))%string.

Definition println (text : string) : M unit :=
  emit (SerialPrint (line text)).

(** [callback] (lines 71-84).  [payload] stands for the [length] bytes the
    loop at lines 73-75 copies into [message]. *)
Definition callback (topic payload : string) : M unit :=
  let message := payload in
  if String.eqb topic CONTROL_TOPIC then
    let newThreshold := WString.toInt message in
    if (newThreshold >? 0) && (newThreshold <? 100) then
      modify (set_autoWaterThreshold newThreshold) ;;
      emit (SerialPrint "NEW Threshold: ") ;;
      s <- get ;;
      println (WString.of_int (autoWaterThreshold s))
    else ret tt
  else ret tt.

(** [reconnect] (lines 86-97). *)
Definition reconnect (env : Env) : M unit :=
  if negb (connectedReconnect env) then
    emit (SerialPrint "Connecting to MQTT...") ;;
    emit MqttConnect ;;
    if connectResult env then
      println "connected" ;;
      emit (MqttSubscribe CONTROL_TOPIC)
    else
      emit (SerialPrint "failed, rc=") ;;
      emit (SerialPrint (WString.of_int (clientState env)))
  else ret tt.

(** [client.loop()] (line 124): the transport hands every pending message
    to [callback], in order. *)
Fixpoint client_loop (msgs : list (string * string)) : M unit :=
  match msgs with
  | [] => ret tt
  | (topic, payload) :: rest => callback topic payload ;; client_loop rest
  end.

(** The water gate (lines 137-142), with the polarity flag as an argument. *)
Definition water_gate (invert : bool) (rawLevel : Z) : bool :=
  let waterCondition := rawLevel >? WATER_SENSOR_THRESHOLD in
  if invert then negb waterCondition else waterCondition.

(** The telemetry payload (line 171). *)
Definition telemetry (soil : Z) (t h : float) (ok : bool) : string :=
  (WString.of_int soil ++ "," ++ WString.of_float t 1 ++ ","
   ++ WString.of_float h 0 ++ "," ++ WString.of_int (if ok then 1 else 0))%string.

(** The pump branch (lines 144-160). *)
Definition actuate : M unit :=
  s <- get ;;
  if negb (waterOk s) then
    emit (DigitalWrite RELAY_PIN LOW) ;;
    modify (set_pumpOn false) ;;
    println "PUMP STOP: NO WATER!"
  else if soilPct s <? autoWaterThreshold s then
    emit (DigitalWrite RELAY_PIN HIGH) ;;
    modify (set_pumpOn true) ;;
    println "PUMP ON: Watering..." ;;
    emit (Delay PUMP_SAFETY_DELAY)
  else
    emit (DigitalWrite RELAY_PIN LOW) ;;
    modify (set_pumpOn false).

(** The body of the [if] at line 126: one tick (lines 127-175). *)
Definition tick (env : Env) : M unit :=
  modify (set_lastLoopTime (Int32.uwrap (millisStamp env))) ;;
  emit DhtReadTemperature ;;
  modify (set_temp (dhtTemperature env)) ;;
  emit DhtReadHumidity ;;
  modify (set_hum (dhtHumidity env)) ;;
  emit (AnalogRead SOIL_PIN) ;;
  let rawSoil := adcSoil env in
  modify (set_soilPct (Arduino.map rawSoil DRY_VAL WET_VAL 0 100)) ;;
  s <- get ;;
  modify (set_soilPct (Arduino.constrain (soilPct s) 0 100)) ;;
  emit (AnalogRead WATER_PIN) ;;
  modify (set_waterLevelRaw (adcWater env)) ;;
  s <- get ;;
  modify (set_waterOk (water_gate INVERT_WATER_LOGIC (waterLevelRaw s))) ;;
  actuate ;;
  s <- get ;;
  emit (DisplayShow (mkSnapshot (soilPct s) (autoWaterThreshold s) (temp s)
                       (waterLevelRaw s) (pumpOn s))) ;;
  let payload := telemetry (soilPct s) (temp s) (hum s) (waterOk s) in
  if connectedPublish env then emit (MqttPublish DATA_TOPIC payload)
  else ret tt.

(** Whether the poll interval has elapsed (line 126), in [unsigned long]
    arithmetic. *)
Definition tick_due (now last : Z) : bool :=
  Int32.uwrap (now - last) >=? LOOP_DELAY.

(** [loop] (lines 120-177). *)
Definition loop (env : Env) : M unit :=
  (if negb (connectedLoop env) then reconnect env else ret tt) ;;
  client_loop (inbound env) ;;
  s <- get ;;
  if tick_due (Int32.uwrap (millisCheck env)) (lastLoopTime s)
  then tick env
  else ret tt.

(** The sketch after [setup]: [loop] called again and again, each call with
    the answers the outside world gives during it. *)
Fixpoint run (envs : list Env) : M unit :=
  match envs with
  | [] => ret tt
  | env :: rest => loop env ;; run rest
  end.

Inductive reachable : State -> Prop :=
| reachable_init : reachable init_state
| reachable_loop (env : Env) (s : State) :
    reachable s -> reachable (state_of (loop env s)).

(** ** Observers of a trace *)

Definition is_sensor_read (e : Event) : bool :=
  match e with
  | DhtReadTemperature | DhtReadHumidity | AnalogRead _ => true
  | _ => false
  end.

Definition sensor_reads (tr : list Event) : list Event :=
  filter is_sensor_read tr.

Definition relay_writes (tr : list Event) : list Level :=
  flat_map (fun e => match e with
                     | DigitalWrite pin level =>
                         if pin =? RELAY_PIN then [level] else []
                     | _ => []
                     end) tr.

Definition delays (tr : list Event) : list Z :=
  flat_map (fun e => match e with Delay ms => [ms] | _ => [] end) tr.

Definition publishes (tr : list Event) : list (string * string) :=
  flat_map (fun e => match e with
                     | MqttPublish topic payload => [(topic, payload)]
                     | _ => []
                     end) tr.

(** ** The decision table of the specification (4.3) *)

Inductive PumpCommand : Type := PUMP_ON | PUMP_OFF.

Definition decide (soil : Z) (ok : bool) (threshold : Z) : PumpCommand :=
  if negb ok then PUMP_OFF
  else if soil <? threshold then PUMP_ON
  else PUMP_OFF.

Definition level_of (c : PumpCommand) : Level :=
  match c with PUMP_ON => HIGH | PUMP_OFF => LOW end.

Definition is_on (c : PumpCommand) : bool :=
  match c with PUMP_ON => true | PUMP_OFF => false end.

(** ** The parts of a tick *)

Arguments telemetry : simpl never.
Arguments soil_percent : simpl never.
Arguments water_gate : simpl never.

(** The sensor part of a tick: the state at the pump branch. *)
Definition sampled (env : Env) (s : State) : State :=
  {| autoWaterThreshold := autoWaterThreshold s;
     lastLoopTime := Int32.uwrap (millisStamp env);
     temp := dhtTemperature env;
     hum := dhtHumidity env;
     soilPct := soil_percent (adcSoil env);
     waterLevelRaw := adcWater env;
     waterOk := water_gate INVERT_WATER_LOGIC (adcWater env);
     pumpOn := pumpOn s |}.

Definition tick_reads : list Event :=
  [DhtReadTemperature; DhtReadHumidity; AnalogRead SOIL_PIN;
   AnalogRead WATER_PIN].

Definition report (env : Env) (s : State) : list Event :=
  DisplayShow (mkSnapshot (soilPct s) (autoWaterThreshold s) (temp s)
                 (waterLevelRaw s) (pumpOn s))
  :: (if connectedPublish env
      then [MqttPublish DATA_TOPIC
              (telemetry (soilPct s) (temp s) (hum s) (waterOk s))]
      else []).

(** ** Sample inputs *)

(** The float a sketch gets for the decimal 23.4: the nearest binary32
    value, widened. *)
Definition float_23_4 : float := 0x1.766666p+4%float.

(** The binary64 value nearest to 23.4, for a reading that was never
    narrowed to binary32. *)
Definition double_23_4 : float := 0x1.7666666666666p+4%float.

Definition sample_env : Env :=
  {| connectedLoop := true; connectedReconnect := true; connectResult := true;
     clientState := 0; inbound := [];
     millisCheck := 2500; millisStamp := 2500;
     dhtTemperature := float_23_4; dhtHumidity := 55%float;
     adcSoil := 2879; adcWater := 3000; connectedPublish := true |}.

Definition dry_reservoir_env : Env :=
  {| connectedLoop := true; connectedReconnect := true; connectResult := true;
     clientState := 0; inbound := [];
     millisCheck := 2500; millisStamp := 2500;
     dhtTemperature := float_23_4; dhtHumidity := 55%float;
     adcSoil := 3805; adcWater := 400; connectedPublish := true |}.

(** ** Control payloads *)

(** Every character is a decimal digit. *)
Fixpoint all_digits (s : string) : bool :=
  match s with
  | String c s' => WString.isdigit c && all_digits s'
  | EmptyString => true
  end.

(** The number a string of decimal digits denotes, continuing [acc]. *)
Fixpoint decimal (acc : Z) (s : string) : Z :=
  match s with
  | String c s' => decimal (10 * acc + WString.digit_value c) s'
  | EmptyString => acc
  end.

Definition starts_with_digit (s : string) : bool :=
  match s with
  | String c _ => WString.isdigit c
  | EmptyString => false
  end.

(** The threshold a control message is accepted with, if any. *)
Definition accepted (topic payload : string) : option Z :=
  let n := WString.toInt payload in
  if String.eqb topic CONTROL_TOPIC && (n >? 0) && (n <? 100)
  then Some n else None.

Definition retune_env : Env :=
  {| connectedLoop := true; connectedReconnect := true; connectResult := true;
     clientState := 0;
     inbound := [(CONTROL_TOPIC, "45"); (CONTROL_TOPIC, "100");
                 (DATA_TOPIC, "7")];
     millisCheck := 1000; millisStamp := 1000;
     dhtTemperature := float_23_4; dhtHumidity := 55%float;
     adcSoil := 2879; adcWater := 3000; connectedPublish := true |}.

(** What [toInt] reads the number from: the payload behind its leading
    white space and optional sign, and whether that sign is a minus. *)
Definition numeral_start (payload : string) : string :=
  snd (WString.strip_sign (WString.skip_spaces payload)).

Definition numeral_negative (payload : string) : bool :=
  fst (WString.strip_sign (WString.skip_spaces payload)).

(** ** Reading a payload back *)

Fixpoint all_chars (p : ascii -> bool) (s : string) : bool :=
  match s with
  | String c s' => p c && all_chars p s'
  | EmptyString => true
  end.

Definition not_comma (c : ascii) : bool := negb (Ascii.eqb c ",").
Definition not_dot (c : ascii) : bool := negb (Ascii.eqb c ".").

(** Characters from ["0"] upwards: neither a comma, a dot, a sign nor a
    blank. *)
Definition from_zero (c : ascii) : bool := (48 <=? N_of_ascii c)%N.

(** The comma-separated fields of a string. *)
Fixpoint fields (s : string) : list string :=
  match s with
  | EmptyString => [EmptyString]
  | String c s' =>
      if Ascii.eqb c "," then EmptyString :: fields s'
      else match fields s' with
           | f :: fs => String c f :: fs
           | [] => [String c EmptyString]
           end
  end.

(** ** Failed sensor reads *)

(** Modelled from the spec: the DHT driver is not part of the sources.  The
    spec (4.1, 9) says a failed read yields a NaN-like "invalid" marker in
    place of a number; the sketch receives it as the value of
    [dht.readTemperature()] or [dht.readHumidity()]. *)
Definition read_failed (x : float) : bool := PrimFloat.is_nan x.

(** The same answers of the outside world, with other DHT readings. *)
Definition with_dht (t h : float) (env : Env) : Env :=
  {| connectedLoop := connectedLoop env;
     connectedReconnect := connectedReconnect env;
     connectResult := connectResult env;
     clientState := clientState env;
     inbound := inbound env;
     millisCheck := millisCheck env;
     millisStamp := millisStamp env;
     dhtTemperature := t;
     dhtHumidity := h;
     adcSoil := adcSoil env;
     adcWater := adcWater env;
     connectedPublish := connectedPublish env |}.

Definition no_digit (c : ascii) : bool := negb (WString.isdigit c).

(** What a tick does to the pump: relay writes, delays, and the state
    without the two DHT readings. *)
Definition pump_view (r : unit * State * list Event)
  : list Level * list Z * (Z * Z * Z * Z * bool * bool) :=
  let s := state_of r in
  (relay_writes (trace_of r), delays (trace_of r),
   (autoWaterThreshold s, lastLoopTime s, soilPct s, waterLevelRaw s,
    waterOk s, pumpOn s)).

Definition failed_dht_env : Env := with_dht nan nan sample_env.

(** ** What belongs to a tick *)

(** Events only a tick produces: sensor reads, pin writes, delays, display
    updates and publishes. *)
Definition is_tick_event (e : Event) : bool :=
  match e with
  | DhtReadTemperature | DhtReadHumidity | AnalogRead _
  | DigitalWrite _ _ | Delay _ | DisplayShow _ | MqttPublish _ _ => true
  | SerialPrint _ | MqttConnect | MqttSubscribe _ => false
  end.

Definition tick_events (tr : list Event) : list Event :=
  filter is_tick_event tr.

Definition threshold_ok (s : State) : Prop := 0 < autoWaterThreshold s < 100.

(** The state when [loop] reaches line 126. *)
Definition before_tick (env : Env) (s : State) : State :=
  state_of (client_loop (inbound env)
              (state_of ((if negb (connectedLoop env) then reconnect env
                          else ret tt) s))).

(** A call of [loop] that comes late: three and a half intervals after
    the previous tick. *)
Definition late_env : Env :=
  {| connectedLoop := true; connectedReconnect := true; connectResult := true;
     clientState := 0; inbound := [];
     millisCheck := 7000; millisStamp := 7001;
     dhtTemperature := float_23_4; dhtHumidity := 55%float;
     adcSoil := 3805; adcWater := 3000; connectedPublish := true |}.

(** The call right after it, half a second later. *)
Definition soon_env : Env :=
  {| connectedLoop := true; connectedReconnect := true; connectResult := true;
     clientState := 0; inbound := [];
     millisCheck := 7502; millisStamp := 7502;
     dhtTemperature := float_23_4; dhtHumidity := 55%float;
     adcSoil := 3805; adcWater := 3000; connectedPublish := true |}.

Ltac int32_range :=
  unfold Int32.in_range, Int32.min_signed, Int32.max_signed,
    Int32.half_modulus in *; lia.

(** Seven-bit (ASCII) characters. *)
Definition seven_bit (c : ascii) : bool := (N_of_ascii c <? 128)%N.

Definition digit_or_minus (c : ascii) : bool :=
  WString.isdigit c || Ascii.eqb c "-".

(** ** Start-up (cpp.cpp, lines 57-69 and 100-117) *)

Definition WIFI_SSID : string := "ТВОЙ_WIFI".
Definition WIFI_PASSWORD : string := "ТВОЙ_ПАРОЛЬ".
Definition MQTT_SERVER : string := "io.adafruit.com".
Definition MQTT_PORT : Z := 1883.
Definition OLED_ADDR : Z := 60.

Inductive PinMode : Type := INPUT | OUTPUT.

(** What [setup] does to the outside world: the effects [loop] also has,
    and those of the bring-up calls. *)
Inductive BootEvent : Type :=
| Core (e : Event)
| SerialBegin (baud : Z)
| DhtBegin
| SetPinMode (pin : Z) (mode : PinMode)
| DisplayBegin (addr : Z)
| DisplayBanner (text : string)
| WifiStation
| WifiBegin (ssid password : string)
| MqttSetServer (host : string) (port : Z)
| MqttSetCallback.

(** The loop of lines 64-67.  [statuses] lists, call after call, whether
    [WiFi.status()] answers [WL_CONNECTED]; the flag of the result tells
    whether the loop was left, or is still polling when the answers end. *)
Fixpoint wifi_wait (statuses : list bool) : list BootEvent * bool :=
  match statuses with
  | [] => ([], false)
  | true :: _ => ([], true)
  | false :: rest =>
      let '(tr, returned) := wifi_wait rest in
      (Core (Delay 500) :: Core (SerialPrint ".") :: tr, returned)
  end.

(** [setup_wifi] (lines 57-69). *)
Definition setup_wifi (statuses : list bool) : list BootEvent * bool :=
  let '(waiting, returned) := wifi_wait statuses in
  ((Core (Delay 10)
    :: Core (SerialPrint "Connecting to WiFi")
    :: WifiStation
    :: WifiBegin WIFI_SSID WIFI_PASSWORD
    :: waiting)
   ++ (if returned
       then [Core (SerialPrint (line (String "010" "WiFi Connected")))]
       else []),
   returned)%list.

(** [setup] (lines 100-117).  [displayOk] is the answer of
    [display.begin]; the flag of the result tells whether [setup]
    returned. *)
Definition setup (displayOk : bool) (statuses : list bool)
  : list BootEvent * bool :=
  let '(wifi, returned) := setup_wifi statuses in
  ([SerialBegin 115200; DhtBegin;
    SetPinMode RELAY_PIN OUTPUT; SetPinMode WATER_PIN INPUT;
    Core (DigitalWrite RELAY_PIN LOW);
    DisplayBegin OLED_ADDR]
   ++ (if negb displayOk then [] else [])
   ++ [DisplayBanner (line "System Boot...")]
   ++ wifi
   ++ (if returned
       then [MqttSetServer MQTT_SERVER MQTT_PORT; MqttSetCallback]
       else []),
   returned)%list.

(** The effects of a start-up that [loop] has as well. *)
Definition core_events (tr : list BootEvent) : list Event :=
  flat_map (fun b => match b with Core e => [e] | _ => [] end) tr.

(** The start-up events before the first delay. *)
Fixpoint before_first_delay (tr : list BootEvent) : list BootEvent :=
  match tr with
  | [] => []
  | Core (Delay _) :: _ => []
  | b :: rest => b :: before_first_delay rest
  end.

(** The number of polls that found the network down before the first
    that found it up. *)
Fixpoint failed_polls (statuses : list bool) : nat :=
  match statuses with
  | false :: rest => S (failed_polls rest)
  | _ => O
  end.

(** ** Further observers *)

Definition connects (tr : list Event) : list Event :=
  flat_map (fun e => match e with MqttConnect => [e] | _ => [] end) tr.

Definition subscribes (tr : list Event) : list string :=
  flat_map (fun e => match e with MqttSubscribe t => [t] | _ => [] end) tr.

Definition displays (tr : list Event) : list Snapshot :=
  flat_map (fun e => match e with DisplayShow snap => [snap] | _ => [] end) tr.

Definition pin_writes (tr : list Event) : list (Z * Level) :=
  flat_map (fun e => match e with
                     | DigitalWrite pin level => [(pin, level)]
                     | _ => []
                     end) tr.

Definition level_of_flag (b : bool) : Level := if b then HIGH else LOW.

(** The level the relay is left at: the last write, or [start] when there
    is none. *)
Definition relay_level (start : Level) (tr : list Event) : Level :=
  last (relay_writes tr) start.

(** Whether a call of [loop] tries to connect, and whether it succeeds. *)
Definition tries_connect (env : Env) : bool :=
  negb (connectedLoop env) && negb (connectedReconnect env).

Definition gains_connection (env : Env) : bool :=
  tries_connect env && connectResult env.

(** The threshold a batch of messages leaves behind: that of the last
    accepted one. *)
Fixpoint last_accepted (msgs : list (string * string)) (current : Z) : Z :=
  match msgs with
  | [] => current
  | (topic, payload) :: rest =>
      last_accepted rest
        (match accepted topic payload with
         | Some n => n
         | None => current
         end)
  end.

(** The same call of [loop] with other answers of the MQTT client. *)
Definition with_link (c1 c2 c3 c4 : bool) (rc : Z) (env : Env) : Env :=
  {| connectedLoop := c1;
     connectedReconnect := c2;
     connectResult := c3;
     clientState := rc;
     inbound := inbound env;
     millisCheck := millisCheck env;
     millisStamp := millisStamp env;
     dhtTemperature := dhtTemperature env;
     dhtHumidity := dhtHumidity env;
     adcSoil := adcSoil env;
     adcWater := adcWater env;
     connectedPublish := c4 |}.

(** What a call of [loop] does apart from talking to the broker and the
    serial port. *)
Definition local_view (r : unit * State * list Event)
  : State * list Event * list Level * list Z * list Snapshot :=
  (state_of r, sensor_reads (trace_of r), relay_writes (trace_of r),
   delays (trace_of r), displays (trace_of r)).

(** The invariant of the sampled fields. *)
Definition samples_ok (s : State) : Prop :=
  0 <= soilPct s <= 100
  /\ waterOk s = (waterLevelRaw s >? WATER_SENSOR_THRESHOLD)
  /\ (pumpOn s = true -> waterOk s = true)
  /\ 0 <= lastLoopTime s < Int32.modulus.

(** A call of [loop] with the broker down. *)
Definition offline_env : Env :=
  with_link false false false false (-2) sample_env.

(** A state as a long run may leave it: pump on, other readings, and the
    default threshold. *)
Definition worn_state : State :=
  {| autoWaterThreshold := 30; lastLoopTime := 123456;
     temp := 31%float; hum := 20%float;
     soilPct := 3; waterLevelRaw := 2900; waterOk := true; pumpOn := true |}.

(** The payload built from the samples of one call of [loop]. *)
Definition reading_payload (env : Env) : string :=
  telemetry (soil_percent (adcSoil env)) (dhtTemperature env)
    (dhtHumidity env) (water_gate INVERT_WATER_LOGIC (adcWater env)).

(** The pump command of a tick with the given samples and threshold. *)
Definition tick_command (env : Env) (threshold : Z) : PumpCommand :=
  decide (soil_percent (adcSoil env))
    (water_gate INVERT_WATER_LOGIC (adcWater env)) threshold.

(** A due call of [loop] that first receives a new threshold. *)
Definition retune_due_env : Env :=
  {| connectedLoop := true; connectedReconnect := true; connectResult := true;
     clientState := 0;
     inbound := [(CONTROL_TOPIC, "20"); (DATA_TOPIC, "99");
                 (CONTROL_TOPIC, "45"); (CONTROL_TOPIC, "450")];
     millisCheck := 7000; millisStamp := 7000;
     dhtTemperature := float_23_4; dhtHumidity := 55%float;
     adcSoil := 2879; adcWater := 3000; connectedPublish := true |}.

(** The same call of [loop] at another reading of the clock. *)
Definition at_clock (now : Z) (env : Env) : Env :=
  {| connectedLoop := connectedLoop env;
     connectedReconnect := connectedReconnect env;
     connectResult := connectResult env;
     clientState := clientState env;
     inbound := inbound env;
     millisCheck := now;
     millisStamp := now;
     dhtTemperature := dhtTemperature env;
     dhtHumidity := dhtHumidity env;
     adcSoil := adcSoil env;
     adcWater := adcWater env;
     connectedPublish := connectedPublish env |}.

(** A state whose last tick was half a second before the millisecond
    counter rolls over. *)
Definition near_rollover_state : State :=
  set_lastLoopTime (Int32.modulus - 500) init_state.

(** A clock that does not run backwards and does not roll over: from time
    [t] on, every call of [loop] reads the clock at line 126 no earlier
    than [t], at line 127 no earlier than that, and the next call
    follows. *)
Fixpoint clock_ok (t : Z) (envs : list Env) : Prop :=
  match envs with
  | [] => True
  | env :: rest =>
      t <= millisCheck env <= millisStamp env
      /\ millisStamp env < Int32.modulus
      /\ clock_ok (millisStamp env) rest
  end.

(** ** Bounds on binary64 values *)

(** A binary64 value that is zero, not a number, or positive and at most
    [b * 2^t]. *)
Definition at_most (b t : Z) (x : spec_float) : Prop :=
  match x with
  | S754_zero _ => True
  | S754_nan => True
  | S754_infinity _ => False
  | S754_finite s m e => s = false /\ e <= t /\ Z.pos m <= b * 2 ^ (t - e)
  end.

(** A float that is not negative, or not a number. *)
Definition not_negative (x : spec_float) : Prop :=
  match x with
  | S754_finite s _ _ | S754_infinity s => s = false
  | S754_zero _ | S754_nan => True
  end.

(** The digit the loop of [emit_digits] takes from [number]. *)
Definition next_digit (number : float) : Z :=
  let digit0 := WString.trunc_int8 number in
  if digit0 >? 9 then 9 else digit0.

(** The values [tenpow] takes in [magnitude]: one, times ten [j] times. *)
Fixpoint pow10f (j : nat) : float :=
  match j with
  | O => 1%float
  | S k => (pow10f k * WString.ten)%float
  end.

(** [a * 2^ea <= b * 2^eb], with the exponents shifted to be natural. *)
Definition dyad_le (a ea b eb : Z) : bool :=
  a * 2 ^ (ea + 1100) <=? b * 2 ^ (eb + 1100).

(** The check on round [j] of [magnitude]: [tenpow] and [10.0 * tenpow] are
    positive, and every double below [10.0 * tenpow] is at most ten times
    [tenpow]. *)
Definition pow10_ok (j : nat) : bool :=
  match Prim2SF (pow10f j), Prim2SF (WString.ten * pow10f j)%float with
  | S754_finite false mT eT, S754_finite false mU eU =>
      (-1074 <=? eT) && (-1074 <=? eU)
      && dyad_le (Z.pos mU - 1) eU (10 * Z.pos mT) eT
      && dyad_le (2 ^ 53 - 1) (eU - 1) (10 * Z.pos mT) eT
  | S754_finite false mT eT, S754_infinity false =>
      (-1074 <=? eT) && dyad_le (2 ^ 53 - 1) 971 (10 * Z.pos mT) eT
  | S754_infinity false, S754_infinity false => true
  | _, _ => false
  end.

(** ** The same tick on another soil sample *)

(** The same answers of the outside world, with another soil sample. *)
Definition with_soil (r : Z) (env : Env) : Env :=
  {| connectedLoop := connectedLoop env;
     connectedReconnect := connectedReconnect env;
     connectResult := connectResult env;
     clientState := clientState env;
     inbound := inbound env;
     millisCheck := millisCheck env; millisStamp := millisStamp env;
     dhtTemperature := dhtTemperature env; dhtHumidity := dhtHumidity env;
     adcSoil := r; adcWater := adcWater env;
     connectedPublish := connectedPublish env |}.

(** * Properties *)

(** ** Equations of the model *)

Lemma tick_eq (env : Env) (s : State) :
  tick env s =
  (tt, state_of (actuate (sampled env s)),
   (tick_reads ++ trace_of (actuate (sampled env s))
    ++ report env (state_of (actuate (sampled env s))))%list).
Proof.
  unfold tick, sampled, report, tick_reads, actuate, bind, modify, emit, get,
    ret, println, state_of, trace_of, soil_percent.
  cbn [fst snd autoWaterThreshold lastLoopTime temp hum soilPct waterLevelRaw
       waterOk pumpOn set_lastLoopTime set_temp set_hum set_soilPct
       set_waterLevelRaw set_waterOk set_pumpOn negb app].
  destruct (water_gate INVERT_WATER_LOGIC (adcWater env));
    cbn [fst snd autoWaterThreshold lastLoopTime temp hum soilPct waterLevelRaw
         waterOk pumpOn set_pumpOn negb app].
  - destruct (_ <? _);
      cbn [fst snd autoWaterThreshold lastLoopTime temp hum soilPct
           waterLevelRaw waterOk pumpOn set_pumpOn negb app];
      destruct (connectedPublish env); reflexivity.
  - destruct (connectedPublish env); reflexivity.
Qed.

Lemma actuate_eq (s : State) :
  actuate s =
  match decide (soilPct s) (waterOk s) (autoWaterThreshold s) with
  | PUMP_ON =>
      (tt, set_pumpOn true s,
       [DigitalWrite RELAY_PIN HIGH;
        SerialPrint (line "PUMP ON: Watering...");
        Delay PUMP_SAFETY_DELAY])
  | PUMP_OFF =>
      (tt, set_pumpOn false s,
       DigitalWrite RELAY_PIN LOW
       :: (if waterOk s then []
           else [SerialPrint (line "PUMP STOP: NO WATER!")]))
  end.
Proof.
  unfold actuate, decide, bind, modify, emit, get, ret, println.
  destruct (waterOk s); cbn [negb]; [destruct (_ <? _)|]; reflexivity.
Qed.

Lemma actuate_state (s : State) :
  state_of (actuate s) =
  set_pumpOn (is_on (decide (soilPct s) (waterOk s) (autoWaterThreshold s))) s.
Proof. rewrite actuate_eq. destruct (decide _ _ _); reflexivity. Qed.

Lemma actuate_relay (s : State) :
  relay_writes (trace_of (actuate s)) =
  [level_of (decide (soilPct s) (waterOk s) (autoWaterThreshold s))].
Proof.
  rewrite actuate_eq. destruct (decide _ _ _); [reflexivity|].
  destruct (waterOk s); reflexivity.
Qed.

Lemma actuate_delays (s : State) :
  delays (trace_of (actuate s)) =
  match decide (soilPct s) (waterOk s) (autoWaterThreshold s) with
  | PUMP_ON => [PUMP_SAFETY_DELAY]
  | PUMP_OFF => []
  end.
Proof.
  rewrite actuate_eq. destruct (decide _ _ _); [reflexivity|].
  destruct (waterOk s); reflexivity.
Qed.

Lemma actuate_no_reads (s : State) :
  sensor_reads (trace_of (actuate s)) = [].
Proof.
  rewrite actuate_eq. destruct (decide _ _ _); [reflexivity|].
  destruct (waterOk s); reflexivity.
Qed.

Lemma tick_state (env : Env) (s : State) :
  state_of (tick env s) = state_of (actuate (sampled env s)).
Proof. rewrite tick_eq. reflexivity. Qed.

Lemma tick_trace (env : Env) (s : State) :
  trace_of (tick env s) =
  (tick_reads ++ trace_of (actuate (sampled env s))
   ++ report env (state_of (actuate (sampled env s))))%list.
Proof. rewrite tick_eq. reflexivity. Qed.

Lemma relay_writes_app (a b : list Event) :
  relay_writes (a ++ b) = (relay_writes a ++ relay_writes b)%list.
Proof. apply flat_map_app. Qed.

Lemma delays_app (a b : list Event) :
  delays (a ++ b) = (delays a ++ delays b)%list.
Proof. apply flat_map_app. Qed.

Lemma publishes_app (a b : list Event) :
  publishes (a ++ b) = (publishes a ++ publishes b)%list.
Proof. apply flat_map_app. Qed.

Lemma sensor_reads_app (a b : list Event) :
  sensor_reads (a ++ b) = (sensor_reads a ++ sensor_reads b)%list.
Proof. apply filter_app. Qed.

Lemma report_quiet (env : Env) (s : State) :
  relay_writes (report env s) = [] /\ delays (report env s) = []
  /\ sensor_reads (report env s) = [].
Proof. unfold report. destruct (connectedPublish env); repeat split. Qed.

Lemma tick_relay (env : Env) (s : State) :
  relay_writes (trace_of (tick env s)) =
  relay_writes (trace_of (actuate (sampled env s))).
Proof.
  rewrite tick_trace, !relay_writes_app.
  destruct (report_quiet env (state_of (actuate (sampled env s)))) as [-> _].
  rewrite app_nil_r. reflexivity.
Qed.

Lemma tick_delays (env : Env) (s : State) :
  delays (trace_of (tick env s)) =
  delays (trace_of (actuate (sampled env s))).
Proof.
  rewrite tick_trace, !delays_app.
  destruct (report_quiet env (state_of (actuate (sampled env s))))
    as (_ & -> & _).
  rewrite app_nil_r. reflexivity.
Qed.

Lemma decide_cases (soil : Z) (ok : bool) (threshold : Z) :
  (ok = false /\ decide soil ok threshold = PUMP_OFF)
  \/ (ok = true /\ soil < threshold /\ decide soil ok threshold = PUMP_ON)
  \/ (ok = true /\ threshold <= soil /\ decide soil ok threshold = PUMP_OFF).
Proof.
  unfold decide. destruct ok; cbn [negb]; [|left; split; reflexivity].
  right. destruct (soil <? threshold) eqn:E.
  - left. apply Z.ltb_lt in E. repeat split; assumption.
  - right. apply Z.ltb_ge in E. repeat split; assumption.
Qed.

(** C1.  The pump branch follows the priority order: with [waterOk] false
    the relay is written LOW and the pump flag cleared, whatever the soil
    percentage, the threshold and the previous pump flag; with [waterOk]
    true the relay is written HIGH (and the flag set) exactly when the
    soil percentage is below the threshold, and LOW otherwise.  This holds
    for the pump branch at every state and for every tick. *)
Theorem C1_decision_priority :
  (forall s : State,
      let r := actuate s in
      (waterOk s = false ->
       relay_writes (trace_of r) = [LOW] /\ pumpOn (state_of r) = false)
      /\ (waterOk s = true ->
          (relay_writes (trace_of r) = [HIGH] /\ pumpOn (state_of r) = true
           <-> soilPct s < autoWaterThreshold s)
          /\ (relay_writes (trace_of r) = [LOW] /\ pumpOn (state_of r) = false
              <-> autoWaterThreshold s <= soilPct s)))
  /\ (forall (env : Env) (s : State),
         let s' := state_of (tick env s) in
         let cmd := decide (soilPct s') (waterOk s') (autoWaterThreshold s') in
         relay_writes (trace_of (tick env s)) = [level_of cmd]
         /\ pumpOn s' = is_on cmd
         /\ (waterOk s' = false -> cmd = PUMP_OFF)
         /\ (waterOk s' = true ->
             (cmd = PUMP_ON <-> soilPct s' < autoWaterThreshold s'))).
Proof.
  split.
  - intros s r. subst r. rewrite actuate_relay, actuate_state.
    destruct (decide_cases (soilPct s) (waterOk s) (autoWaterThreshold s))
      as [(Hw & ->) | [(Hw & Hlt & ->) | (Hw & Hge & ->)]];
      cbn [level_of is_on set_pumpOn pumpOn]; rewrite Hw.
    + split; [intros _; split; reflexivity | discriminate].
    + split; [discriminate | intros _]. split; split.
      * intros _. exact Hlt.
      * intros _. split; reflexivity.
      * intros [H _]. discriminate H.
      * intros H. lia.
    + split; [discriminate | intros _]. split; split.
      * intros [H _]. discriminate H.
      * intros H. lia.
      * intros _. exact Hge.
      * intros _. split; reflexivity.
  - intros env s s' cmd. subst s' cmd.
    rewrite tick_relay, tick_state, actuate_relay, actuate_state.
    cbn [set_pumpOn soilPct waterOk autoWaterThreshold pumpOn].
    set (s0 := sampled env s).
    destruct (decide_cases (soilPct s0) (waterOk s0) (autoWaterThreshold s0))
      as [(Hw & ->) | [(Hw & Hlt & ->) | (Hw & Hge & ->)]]; rewrite Hw.
    + repeat split; try reflexivity; try discriminate.
    + repeat split; try reflexivity; try discriminate; intros; assumption.
    + repeat split; try reflexivity; try discriminate; intros; try lia.
Qed.

Lemma C1_decision_priority_witness :
  waterOk (sampled dry_reservoir_env init_state) = false
  /\ relay_writes (trace_of (actuate (sampled dry_reservoir_env init_state)))
     = [LOW]
  /\ waterOk (sampled sample_env init_state) = true
  /\ autoWaterThreshold (sampled sample_env init_state)
     <= soilPct (sampled sample_env init_state)
  /\ relay_writes (trace_of (actuate (sampled sample_env init_state))) = [LOW].
Proof.
  pose proof (proj1 C1_decision_priority (sampled dry_reservoir_env init_state))
    as [Hdry _].
  pose proof (proj1 C1_decision_priority (sampled sample_env init_state))
    as [_ Hwet].
  assert (Hw : waterOk (sampled sample_env init_state) = true)
    by (vm_compute; reflexivity).
  assert (Hd : waterOk (sampled dry_reservoir_env init_state) = false)
    by (vm_compute; reflexivity).
  assert (Hs : autoWaterThreshold (sampled sample_env init_state)
               <= soilPct (sampled sample_env init_state))
    by (vm_compute; discriminate).
  split; [exact Hd|]. split; [exact (proj1 (Hdry Hd))|].
  split; [exact Hw|]. split; [exact Hs|].
  exact (proj1 (proj2 (proj2 (Hwet Hw)) Hs)).
Defined.

(** ** Soil mapping *)

Lemma wrap_small (z : Z) : Int32.in_range z -> Int32.wrap z = z.
Proof.
  unfold Int32.in_range, Int32.wrap, Int32.min_signed, Int32.max_signed,
    Int32.half_modulus, Int32.modulus.
  intros H. rewrite Z.mod_small; lia.
Qed.

Lemma constrain_bounds (amt low high : Z) :
  low <= high -> low <= Arduino.constrain amt low high <= high.
Proof.
  unfold Arduino.constrain. intros H.
  destruct (amt <? low) eqn:E1; [lia|].
  destruct (amt >? high) eqn:E2; [lia|].
  apply Z.ltb_ge in E1. rewrite Z.gtb_ltb in E2. apply Z.ltb_ge in E2. lia.
Qed.


(** Without overflow the core's [map] is the exact quotient. *)
Lemma map_soil_exact (raw : Z) :
  Int32.in_range ((raw - DRY_VAL) * 100) ->
  Arduino.map raw DRY_VAL WET_VAL 0 100
  = Z.quot ((DRY_VAL - raw) * 100) (DRY_VAL - WET_VAL).
Proof.
  unfold DRY_VAL, WET_VAL. intros H.
  assert (Hb : -2147483648 <= (raw - 4095) * 100 <= 2147483647) by int32_range.
  unfold Arduino.map.
  replace (100 - 0) with 100 by reflexivity.
  replace (1200 - 4095) with (-2895) by reflexivity.
  rewrite (wrap_small 100) by int32_range.
  rewrite (wrap_small (-2895)) by int32_range.
  rewrite (wrap_small (raw - 4095)) by int32_range.
  rewrite (wrap_small ((raw - 4095) * 100)) by int32_range.
  replace ((raw - 4095) * 100) with (- ((4095 - raw) * 100)) by ring.
  change (-2895) with (Z.opp 2895).
  rewrite Z.quot_opp_opp by lia.
  replace (4095 - 1200) with 2895 by reflexivity.
  assert (Hq : Z.abs (Z.quot ((4095 - raw) * 100) 2895)
               <= Z.abs ((4095 - raw) * 100)).
  { rewrite <- Z.quot_abs by lia.
    apply Z.quot_le_upper_bound; [lia|].
    change (Z.abs 2895) with 2895. nia. }
  rewrite (wrap_small (Z.quot _ _)) by int32_range.
  rewrite Z.add_0_r.
  apply wrap_small. int32_range.
Qed.

Lemma soil_percent_above_dry (raw : Z) :
  DRY_VAL <= raw -> Int32.in_range ((raw - DRY_VAL) * 100) ->
  soil_percent raw = 0.
Proof.
  intros Hge Hr. unfold soil_percent. rewrite map_soil_exact by assumption.
  unfold DRY_VAL, WET_VAL in *.
  replace ((4095 - raw) * 100) with (- ((raw - 4095) * 100)) by ring.
  rewrite Z.quot_opp_l by lia.
  change (4095 - 1200) with 2895.
  assert (0 <= Z.quot ((raw - 4095) * 100) 2895)
    by (apply Z.quot_pos; lia).
  unfold Arduino.constrain.
  destruct (_ <? 0) eqn:E1; [reflexivity|].
  apply Z.ltb_ge in E1.
  destruct (_ >? 100) eqn:E2; [rewrite Z.gtb_ltb in E2; apply Z.ltb_lt in E2|];
    lia.
Qed.

Lemma soil_percent_below_wet (raw : Z) :
  raw <= WET_VAL -> Int32.in_range ((raw - DRY_VAL) * 100) ->
  soil_percent raw = 100.
Proof.
  intros Hle Hr. unfold soil_percent. rewrite map_soil_exact by assumption.
  unfold DRY_VAL, WET_VAL in *.
  change (4095 - 1200) with 2895.
  assert (100 <= Z.quot ((4095 - raw) * 100) 2895).
  { apply Z.quot_le_lower_bound; lia. }
  unfold Arduino.constrain.
  destruct (_ <? 0) eqn:E1; [apply Z.ltb_lt in E1; lia|].
  destruct (_ >? 100) eqn:E2; [reflexivity|].
  rewrite Z.gtb_ltb in E2. apply Z.ltb_ge in E2. lia.
Qed.

Lemma soil_percent_between (raw : Z) :
  WET_VAL <= raw <= DRY_VAL ->
  soil_percent raw = (DRY_VAL - raw) * 100 / (DRY_VAL - WET_VAL).
Proof.
  intros Hb. unfold soil_percent.
  rewrite map_soil_exact
    by (unfold DRY_VAL, WET_VAL in *; int32_range).
  unfold DRY_VAL, WET_VAL in *.
  change (4095 - 1200) with 2895.
  rewrite Z.quot_div_nonneg by lia.
  assert (0 <= (4095 - raw) * 100 / 2895) by (apply Z.div_pos; lia).
  assert ((4095 - raw) * 100 / 2895 <= 100)
    by (apply Z.div_le_upper_bound; lia).
  unfold Arduino.constrain.
  destruct (_ <? 0) eqn:E1; [apply Z.ltb_lt in E1; lia|].
  destruct (_ >? 100) eqn:E2; [|reflexivity].
  rewrite Z.gtb_ltb in E2. apply Z.ltb_lt in E2. lia.
Qed.

(** C3.  The soil percentage is the linear map of the raw value from the
    descending range [DRY_VAL .. WET_VAL] to [0 .. 100], clamped: the dry
    endpoint gives 0, the wet endpoint 100, a raw value between them its
    linear image, a raw value beyond an endpoint the nearer bound; the
    result always lies in [0, 100], and it is what a tick stores. *)
Theorem C3_soil_percent_linear_clamped :
  soil_percent DRY_VAL = 0
  /\ soil_percent WET_VAL = 100
  /\ (forall raw, WET_VAL <= raw <= DRY_VAL ->
        soil_percent raw = (DRY_VAL - raw) * 100 / (DRY_VAL - WET_VAL))
  /\ (forall raw, DRY_VAL <= raw ->
        Int32.in_range ((raw - DRY_VAL) * 100) -> soil_percent raw = 0)
  /\ (forall raw, raw <= WET_VAL ->
        Int32.in_range ((raw - DRY_VAL) * 100) -> soil_percent raw = 100)
  /\ (forall raw, 0 <= soil_percent raw <= 100)
  /\ (forall env s,
        soilPct (state_of (tick env s)) = soil_percent (adcSoil env)
        /\ 0 <= soilPct (state_of (tick env s)) <= 100).
Proof.
  split; [reflexivity|]. split; [reflexivity|].
  split; [exact soil_percent_between|].
  split; [exact soil_percent_above_dry|].
  split; [exact soil_percent_below_wet|].
  assert (Hb : forall raw, 0 <= soil_percent raw <= 100)
    by (intros raw; unfold soil_percent; apply constrain_bounds; lia).
  split; [exact Hb|].
  intros env s. rewrite tick_state, actuate_state.
  cbn [set_pumpOn soilPct sampled]. split; [reflexivity | apply Hb].
Qed.

Lemma C3_soil_percent_linear_clamped_witness :
  soil_percent 2879 = 42 /\ soil_percent 5000 = 0 /\ soil_percent 300 = 100.
Proof.
  destruct C3_soil_percent_linear_clamped as (_ & _ & Hmid & Hdry & Hwet & _).
  split; [|split].
  - rewrite (Hmid 2879) by (unfold WET_VAL, DRY_VAL; lia). reflexivity.
  - apply (Hdry 5000); [unfold DRY_VAL; lia | vm_compute; split; discriminate].
  - apply (Hwet 300); [unfold WET_VAL; lia | vm_compute; split; discriminate].
Defined.

(** ** Water gate *)

(** C4.  The water gate is [rawLevel > WATER_SENSOR_THRESHOLD], negated
    when the polarity flag is set: with the flag clear it is a step that
    is false up to the threshold and true above it, hence monotonic; with
    the flag set it is the complement for every raw level.  A tick stores
    the gate of the water sample under the compiled-in flag. *)
Theorem C4_water_gate :
  (forall raw invert,
      water_gate invert raw
      = if invert then negb (raw >? WATER_SENSOR_THRESHOLD)
        else raw >? WATER_SENSOR_THRESHOLD)
  /\ (forall raw,
         water_gate false raw = true <-> raw > WATER_SENSOR_THRESHOLD)
  /\ (forall r1 r2, r1 <= r2 ->
         water_gate false r1 = true -> water_gate false r2 = true)
  /\ (forall raw, water_gate true raw = negb (water_gate false raw))
  /\ (forall env s,
         waterOk (state_of (tick env s))
         = water_gate INVERT_WATER_LOGIC (adcWater env)).
Proof.
  assert (Hstep : forall raw,
             water_gate false raw = true <-> raw > WATER_SENSOR_THRESHOLD).
  { intros raw. unfold water_gate. rewrite Z.gtb_ltb, Z.ltb_lt. lia. }
  split; [reflexivity|]. split; [exact Hstep|]. split.
  - intros r1 r2 Hle H1. apply Hstep. apply Hstep in H1. lia.
  - split; [reflexivity|].
    intros env s. rewrite tick_state, actuate_state. reflexivity.
Qed.

Lemma C4_water_gate_witness :
  water_gate false 1001 = true /\ water_gate false 4095 = true.
Proof.
  destruct C4_water_gate as (_ & Hstep & Hmono & _).
  assert (H : water_gate false 1001 = true)
    by (apply Hstep; unfold WATER_SENSOR_THRESHOLD; lia).
  split; [exact H|].
  apply (Hmono 1001 4095); [lia | exact H].
Defined.

(** ** Inbound control messages *)

Lemma state_of_bind {A B : Type} (m : M A) (k : A -> M B) (s : State) :
  state_of (bind m k s) = state_of (k (fst (fst (m s))) (state_of (m s))).
Proof.
  unfold bind, state_of. destruct (m s) as [[a s1] t1].
  cbn [fst snd]. destruct (k a s1) as [[b s2] t2]. reflexivity.
Qed.

Lemma trace_of_bind {A B : Type} (m : M A) (k : A -> M B) (s : State) :
  trace_of (bind m k s)
  = (trace_of (m s)
     ++ trace_of (k (fst (fst (m s))) (state_of (m s))))%list.
Proof.
  unfold bind, state_of, trace_of. destruct (m s) as [[a s1] t1].
  cbn [fst snd]. destruct (k a s1) as [[b s2] t2]. reflexivity.
Qed.

Lemma callback_eq (topic payload : string) (s : State) :
  callback topic payload s =
  match accepted topic payload with
  | Some n =>
      (tt, set_autoWaterThreshold n s,
       [SerialPrint "NEW Threshold: ";
        SerialPrint (line (WString.of_int n))])
  | None => (tt, s, [])
  end.
Proof.
  unfold callback, accepted.
  destruct (String.eqb topic CONTROL_TOPIC); cbn [andb]; [|reflexivity].
  destruct ((WString.toInt payload >? 0) && (WString.toInt payload <? 100));
    reflexivity.
Qed.

Lemma accepted_some (topic payload : string) (n : Z) :
  accepted topic payload = Some n <->
  topic = CONTROL_TOPIC /\ n = WString.toInt payload /\ 0 < n < 100.
Proof.
  unfold accepted.
  destruct (String.eqb_spec topic CONTROL_TOPIC) as [Ht | Ht]; cbn [andb].
  - destruct (WString.toInt payload >? 0) eqn:E1; cbn [andb].
    + destruct (WString.toInt payload <? 100) eqn:E2.
      * rewrite Z.gtb_ltb in E1. apply Z.ltb_lt in E1. apply Z.ltb_lt in E2.
        split.
        -- intros [= <-]. repeat split; try assumption.
        -- intros (_ & -> & _). reflexivity.
      * apply Z.ltb_ge in E2. split; [discriminate|].
        intros (_ & -> & H). lia.
    + rewrite Z.gtb_ltb in E1. apply Z.ltb_ge in E1. split; [discriminate|].
      intros (_ & -> & H). lia.
  - split; [discriminate|]. intros (H & _). contradiction.
Qed.

Lemma accepted_none (topic payload : string) :
  accepted topic payload = None <->
  topic <> CONTROL_TOPIC \/ ~ 0 < WString.toInt payload < 100.
Proof.
  destruct (accepted topic payload) as [n|] eqn:E.
  - apply accepted_some in E. destruct E as (Ht & -> & Hr).
    split; [discriminate|]. intros [H | H]; contradiction.
  - split; [|reflexivity]. intros _.
    destruct (String.eqb_spec topic CONTROL_TOPIC) as [Ht | Ht];
      [|left; exact Ht].
    right. intros Hr.
    assert (H : accepted topic payload = Some (WString.toInt payload))
      by (apply accepted_some; repeat split; [exact Ht | lia | lia]).
    congruence.
Qed.

(** C2.  [callback] stores a new threshold only when the topic is the
    control topic and the payload parses to an integer strictly between 0
    and 100; the stored value is that integer.  Otherwise (another topic,
    or a parse result outside the open interval, as for "abc", "0" and
    "100") the state is left as it was and nothing is printed.  The
    handler has no failing outcome. *)
Theorem C2_callback_validates :
  (forall topic payload s,
      topic = CONTROL_TOPIC -> 0 < WString.toInt payload < 100 ->
      state_of (callback topic payload s)
      = set_autoWaterThreshold (WString.toInt payload) s)
  /\ (forall topic payload s,
         topic <> CONTROL_TOPIC \/ ~ 0 < WString.toInt payload < 100 ->
         callback topic payload s = (tt, s, []))
  /\ (forall topic payload s,
         autoWaterThreshold (state_of (callback topic payload s))
         <> autoWaterThreshold s ->
         topic = CONTROL_TOPIC /\ 0 < WString.toInt payload < 100)
  /\ (forall s,
         autoWaterThreshold (state_of (callback CONTROL_TOPIC "45" s)) = 45
         /\ callback CONTROL_TOPIC "0" s = (tt, s, [])
         /\ callback CONTROL_TOPIC "100" s = (tt, s, [])
         /\ callback CONTROL_TOPIC "abc" s = (tt, s, [])
         /\ callback DATA_TOPIC "45" s = (tt, s, [])).
Proof.
  split; [|split; [|split]].
  - intros topic payload s Ht Hr. rewrite callback_eq.
    assert (H : accepted topic payload = Some (WString.toInt payload))
      by (apply accepted_some; repeat split; [exact Ht | lia | lia]).
    rewrite H. reflexivity.
  - intros topic payload s H. rewrite callback_eq.
    apply accepted_none in H. rewrite H. reflexivity.
  - intros topic payload s. rewrite callback_eq.
    destruct (accepted topic payload) as [n|] eqn:E.
    + apply accepted_some in E. destruct E as (Ht & -> & Hr).
      intros _. split; assumption.
    + intros H. exfalso. apply H. reflexivity.
  - intros s. rewrite !callback_eq. repeat split.
Qed.

Lemma C2_callback_validates_witness :
  state_of (callback CONTROL_TOPIC "45" init_state)
  = set_autoWaterThreshold 45 init_state
  /\ callback "feeds/other" "45" init_state = (tt, init_state, [])
  /\ callback CONTROL_TOPIC "250" init_state = (tt, init_state, []).
Proof.
  destruct C2_callback_validates as (Hup & Hkeep & _).
  split; [|split].
  - apply (Hup CONTROL_TOPIC "45" init_state);
      [reflexivity | vm_compute; split; reflexivity].
  - apply (Hkeep "feeds/other" "45" init_state). left. discriminate.
  - apply (Hkeep CONTROL_TOPIC "250" init_state). right.
    vm_compute. intros [_ H]. discriminate H.
Defined.

(** ** The threshold invariant *)

Lemma callback_threshold (topic payload : string) (s : State) :
  threshold_ok s -> threshold_ok (state_of (callback topic payload s)).
Proof.
  intros H. rewrite callback_eq.
  destruct (accepted topic payload) as [n|] eqn:E; [|exact H].
  apply accepted_some in E. destruct E as (_ & _ & Hr). exact Hr.
Qed.

Lemma client_loop_threshold (msgs : list (string * string)) :
  forall s, threshold_ok s -> threshold_ok (state_of (client_loop msgs s)).
Proof.
  induction msgs as [|[topic payload] rest IH]; intros s H.
  - exact H.
  - cbn [client_loop]. rewrite state_of_bind.
    apply IH. apply callback_threshold. exact H.
Qed.

Lemma reconnect_state (env : Env) (s : State) :
  state_of (reconnect env s) = s.
Proof.
  unfold reconnect.
  destruct (connectedReconnect env); [reflexivity|].
  destruct (connectResult env); reflexivity.
Qed.

Lemma tick_threshold (env : Env) (s : State) :
  autoWaterThreshold (state_of (tick env s)) = autoWaterThreshold s.
Proof. rewrite tick_state, actuate_state. reflexivity. Qed.

Lemma before_tick_eq (env : Env) (s : State) :
  before_tick env s = state_of (client_loop (inbound env) s).
Proof.
  unfold before_tick. destruct (connectedLoop env); cbn [negb];
    [reflexivity | rewrite reconnect_state; reflexivity].
Qed.

Lemma loop_state (env : Env) (s : State) :
  state_of (loop env s) =
  if tick_due (Int32.uwrap (millisCheck env))
       (lastLoopTime (before_tick env s))
  then state_of (tick env (before_tick env s))
  else before_tick env s.
Proof.
  unfold loop. rewrite !state_of_bind. fold (before_tick env s).
  unfold get at 2. cbn [fst snd state_of].
  destruct (tick_due _ _); reflexivity.
Qed.

Lemma loop_threshold (env : Env) (s : State) :
  threshold_ok s -> threshold_ok (state_of (loop env s)).
Proof.
  intros H. rewrite loop_state.
  assert (Hb : threshold_ok (before_tick env s))
    by (rewrite before_tick_eq; apply client_loop_threshold; exact H).
  destruct (tick_due _ _); [|exact Hb].
  unfold threshold_ok. rewrite tick_threshold. exact Hb.
Qed.

Lemma run_state_cons (env : Env) (rest : list Env) (s : State) :
  state_of (run (env :: rest) s) = state_of (run rest (state_of (loop env s))).
Proof. cbn [run]. rewrite state_of_bind. reflexivity. Qed.

Lemma run_reachable (envs : list Env) :
  forall s, reachable s -> reachable (state_of (run envs s)).
Proof.
  induction envs as [|env rest IH]; intros s H.
  - exact H.
  - rewrite run_state_cons. apply IH. apply reachable_loop. exact H.
Qed.

(** C8.  The threshold starts at 30 and stays strictly between 0 and 100
    in every state the sketch can reach, whatever messages arrive and
    whatever the sensors and the clock answer. *)
Theorem C8_threshold_invariant :
  autoWaterThreshold init_state = 30
  /\ (forall s, reachable s -> 0 < autoWaterThreshold s < 100)
  /\ (forall envs,
         0 < autoWaterThreshold (state_of (run envs init_state)) < 100).
Proof.
  assert (Hinv : forall s, reachable s -> threshold_ok s).
  { intros s H. induction H as [|env s H IH].
    - unfold threshold_ok. cbn. lia.
    - apply loop_threshold. exact IH. }
  split; [reflexivity|]. split; [exact Hinv|].
  intros envs. apply Hinv. apply run_reachable. apply reachable_init.
Qed.

Lemma C8_threshold_invariant_witness :
  0 < autoWaterThreshold (state_of (loop retune_env init_state)) < 100.
Proof.
  apply (proj1 (proj2 C8_threshold_invariant)).
  apply reachable_loop. apply reachable_init.
Defined.

(** ** What [toInt] makes of a payload *)

Lemma digit_not_space (c : ascii) :
  WString.isdigit c = true -> WString.isspace c = false.
Proof.
  destruct c as [[] [] [] [] [] [] [] []]; vm_compute; congruence.
Qed.

Lemma digit_not_sign (c : ascii) :
  WString.isdigit c = true ->
  Ascii.eqb c "-" = false /\ Ascii.eqb c "+" = false.
Proof.
  destruct c as [[] [] [] [] [] [] [] []]; vm_compute;
    (split; congruence) || congruence.
Qed.

Lemma skip_spaces_digit (s : string) :
  starts_with_digit s = true -> WString.skip_spaces s = s.
Proof.
  destruct s as [|c r]; [reflexivity|]. cbn [starts_with_digit].
  intros H. cbn [WString.skip_spaces].
  rewrite (digit_not_space c H). reflexivity.
Qed.

Lemma strip_sign_digit (s : string) :
  starts_with_digit s = true -> WString.strip_sign s = (false, s).
Proof.
  destruct s as [|c r]; [reflexivity|]. cbn [starts_with_digit].
  intros H. unfold WString.strip_sign.
  destruct (digit_not_sign c H) as [-> ->]. reflexivity.
Qed.

Lemma digits_value_stop (acc : Z) (s : string) :
  starts_with_digit s = false -> WString.digits_value acc s = acc.
Proof.
  destruct s as [|c r]; [reflexivity|]. cbn [starts_with_digit].
  intros H. cbn [WString.digits_value]. rewrite H. reflexivity.
Qed.

Lemma digits_value_app (ds rest : string) :
  all_digits ds = true -> starts_with_digit rest = false ->
  forall acc, WString.digits_value acc (ds ++ rest) = decimal acc ds.
Proof.
  intros Hd Hr. induction ds as [|c ds IH]; intros acc.
  - cbn [append decimal]. apply digits_value_stop. exact Hr.
  - cbn [all_digits] in Hd. apply andb_true_iff in Hd. destruct Hd as [Hc Hd].
    cbn [append WString.digits_value decimal]. rewrite Hc. apply IH. exact Hd.
Qed.

Lemma saturate_small (z : Z) : Int32.in_range z -> WString.saturate z = z.
Proof.
  intros H. unfold WString.saturate.
  destruct (z <? Int32.min_signed) eqn:E1;
    [apply Z.ltb_lt in E1; int32_range|].
  destruct (z >? Int32.max_signed) eqn:E2; [|reflexivity].
  rewrite Z.gtb_ltb in E2. apply Z.ltb_lt in E2. int32_range.
Qed.

Lemma toInt_numeral (payload ds rest : string) :
  numeral_start payload = (ds ++ rest)%string ->
  all_digits ds = true -> starts_with_digit rest = false ->
  WString.toInt payload
  = WString.saturate (if numeral_negative payload
                      then - decimal 0 ds else decimal 0 ds).
Proof.
  unfold numeral_start, numeral_negative, WString.toInt.
  destruct (WString.strip_sign (WString.skip_spaces payload)) as [neg s2].
  cbn [fst snd]. intros -> Hd Hr.
  rewrite (digits_value_app ds rest Hd Hr). reflexivity.
Qed.

Lemma starts_with_digit_app (ds rest : string) :
  ds <> EmptyString -> all_digits ds = true ->
  starts_with_digit (ds ++ rest) = true.
Proof.
  destruct ds as [|c ds]; [congruence|]. intros _ Hd.
  cbn [all_digits] in Hd. apply andb_true_iff in Hd. exact (proj1 Hd).
Qed.

Lemma toInt_leading_digits (ds rest : string) :
  ds <> EmptyString -> all_digits ds = true ->
  starts_with_digit rest = false -> 0 < decimal 0 ds < 100 ->
  WString.toInt (ds ++ rest) = decimal 0 ds.
Proof.
  intros Hne Hd Hr Hv.
  pose proof (starts_with_digit_app ds rest Hne Hd) as Hs.
  assert (Hstart : numeral_start (ds ++ rest) = (ds ++ rest)%string)
    by (unfold numeral_start;
        rewrite (skip_spaces_digit _ Hs), (strip_sign_digit _ Hs);
        reflexivity).
  assert (Hneg : numeral_negative (ds ++ rest) = false)
    by (unfold numeral_negative;
        rewrite (skip_spaces_digit _ Hs), (strip_sign_digit _ Hs);
        reflexivity).
  rewrite (toInt_numeral _ ds rest Hstart Hd Hr), Hneg.
  apply saturate_small. int32_range.
Qed.

Lemma toInt_no_digit (payload : string) :
  starts_with_digit (numeral_start payload) = false ->
  WString.toInt payload = 0.
Proof.
  intros H.
  pose proof (toInt_numeral payload EmptyString (numeral_start payload)
                eq_refl eq_refl H) as E.
  rewrite E. cbn [decimal]. destruct (numeral_negative payload); reflexivity.
Qed.

(** C10, as the sketch behaves.  [toInt] reads the decimal digits that
    follow the payload's leading white space and optional sign.  A payload
    of digits denoting a value strictly between 0 and 100, followed by
    anything that does not start with a digit (as in "45abc"), sets the
    threshold to that value; a payload with no digit behind its white
    space and sign parses to 0 and leaves the state as it was. *)
Theorem C10_leading_number :
  (forall payload ds rest,
      numeral_start payload = (ds ++ rest)%string ->
      all_digits ds = true -> starts_with_digit rest = false ->
      WString.toInt payload
      = WString.saturate (if numeral_negative payload
                          then - decimal 0 ds else decimal 0 ds))
  /\ (forall ds rest s,
         ds <> EmptyString -> all_digits ds = true ->
         starts_with_digit rest = false -> 0 < decimal 0 ds < 100 ->
         WString.toInt (ds ++ rest) = decimal 0 ds
         /\ state_of (callback CONTROL_TOPIC (ds ++ rest) s)
            = set_autoWaterThreshold (decimal 0 ds) s)
  /\ (forall payload s,
         starts_with_digit (numeral_start payload) = false ->
         WString.toInt payload = 0
         /\ callback CONTROL_TOPIC payload s = (tt, s, []))
  /\ (forall s,
         state_of (callback CONTROL_TOPIC "45abc" s)
         = set_autoWaterThreshold 45 s
         /\ callback CONTROL_TOPIC "abc45" s = (tt, s, [])).
Proof.
  split; [exact toInt_numeral|]. split; [|split].
  - intros ds rest s Hne Hd Hr Hv.
    pose proof (toInt_leading_digits ds rest Hne Hd Hr Hv) as E.
    split; [exact E|].
    rewrite callback_eq.
    assert (H : accepted CONTROL_TOPIC (ds ++ rest) = Some (decimal 0 ds))
      by (apply accepted_some; repeat split; [symmetry; exact E | lia | lia]).
    rewrite H. reflexivity.
  - intros payload s H. pose proof (toInt_no_digit payload H) as E.
    split; [exact E|].
    rewrite callback_eq.
    assert (Hn : accepted CONTROL_TOPIC payload = None)
      by (apply accepted_none; right; rewrite E; lia).
    rewrite Hn. reflexivity.
  - intros s. rewrite !callback_eq. split; reflexivity.
Qed.

Lemma C10_leading_number_witness :
  WString.toInt "07 % humidity" = 7
  /\ state_of (callback CONTROL_TOPIC "07 % humidity" init_state)
     = set_autoWaterThreshold 7 init_state
  /\ callback CONTROL_TOPIC " -x" init_state = (tt, init_state, []).
Proof.
  destruct C10_leading_number as (_ & Hdigits & Hnone & _).
  destruct (Hdigits "07" " % humidity" init_state) as [H1 H2];
    [discriminate | reflexivity | reflexivity | vm_compute; split; reflexivity
    |].
  split; [exact H1|]. split; [exact H2|].
  exact (proj2 (Hnone " -x" init_state eq_refl)).
Defined.

(** C10, as it is worded, fails: a payload whose first character is not a
    digit can still parse to a value in range and change the threshold. *)
Lemma C10_no_leading_digit_counterexample :
  ~ (starts_with_digit " 45" = false ->
     WString.toInt " 45" = 0
     /\ autoWaterThreshold
          (state_of (callback CONTROL_TOPIC " 45" init_state))
        = autoWaterThreshold init_state).
Proof.
  intros H. destruct (H eq_refl) as [Hparse _]. discriminate Hparse.
Qed.

(** ** The telemetry payload *)

Lemma all_chars_app (p : ascii -> bool) (a b : string) :
  all_chars p (a ++ b) = all_chars p a && all_chars p b.
Proof.
  induction a as [|c a IH]; [reflexivity|].
  cbn [append all_chars]. rewrite IH. apply andb_assoc.
Qed.

Lemma append_assoc (a b c : string) :
  ((a ++ b) ++ c = a ++ (b ++ c))%string.
Proof.
  induction a as [|x a IH]; [reflexivity|].
  cbn [append]. rewrite IH. reflexivity.
Qed.

Lemma all_chars_weaken (p q : ascii -> bool) (s : string) :
  (forall c, p c = true -> q c = true) ->
  all_chars p s = true -> all_chars q s = true.
Proof.
  intros Hpq. induction s as [|c s IH]; [reflexivity|].
  cbn [all_chars]. rewrite !andb_true_iff. intros [Hc Hs].
  split; [apply Hpq; exact Hc | apply IH; exact Hs].
Qed.

Lemma fields_app (a b : string) :
  all_chars not_comma a = true ->
  fields (a ++ String "," b) = a :: fields b.
Proof.
  induction a as [|c a IH]; intros H.
  - reflexivity.
  - cbn [all_chars] in H. apply andb_true_iff in H. destruct H as [Hc Ha].
    cbn [append fields]. unfold not_comma in Hc.
    apply negb_true_iff in Hc. rewrite Hc, (IH Ha). reflexivity.
Qed.

Lemma fields_single (a : string) :
  all_chars not_comma a = true -> fields a = [a].
Proof.
  induction a as [|c a IH]; intros H.
  - reflexivity.
  - cbn [all_chars] in H. apply andb_true_iff in H. destruct H as [Hc Ha].
    cbn [fields]. unfold not_comma in Hc.
    apply negb_true_iff in Hc. rewrite Hc, (IH Ha). reflexivity.
Qed.

Lemma string_of_uint_digits (d : Decimal.uint) :
  all_chars digit_or_minus (NilEmpty.string_of_uint d) = true.
Proof.
  induction d; cbn [NilEmpty.string_of_uint all_chars]; try reflexivity;
    rewrite IHd; reflexivity.
Qed.

Lemma of_int_digits (n : Z) :
  all_chars digit_or_minus (WString.of_int n) = true.
Proof.
  unfold WString.of_int, NilZero.string_of_int.
  destruct (Z.to_int n) as [d | d].
  - unfold NilZero.string_of_uint.
    destruct d; try reflexivity; apply string_of_uint_digits.
  - cbn [all_chars]. unfold NilZero.string_of_uint.
    destruct d; try reflexivity; apply string_of_uint_digits.
Qed.

Lemma digit_or_minus_plain (c : ascii) :
  digit_or_minus c = true -> not_comma c = true /\ seven_bit c = true.
Proof.
  destruct c as [[] [] [] [] [] [] [] []]; vm_compute;
    (split; congruence) || congruence.
Qed.

Lemma of_int_no_comma (n : Z) : all_chars not_comma (WString.of_int n) = true.
Proof.
  apply (all_chars_weaken digit_or_minus); [|apply of_int_digits].
  intros c H. apply (digit_or_minus_plain c H).
Qed.

Lemma of_int_seven_bit (n : Z) : all_chars seven_bit (WString.of_int n) = true.
Proof.
  apply (all_chars_weaken digit_or_minus); [|apply of_int_digits].
  intros c H. apply (digit_or_minus_plain c H).
Qed.

Lemma or_zero_char_from_zero (d : Z) :
  from_zero (WString.or_zero_char d) = true.
Proof.
  unfold from_zero, WString.or_zero_char.
  set (v := Z.lor 48 d mod 256).
  assert (Hv : 0 <= v < 256) by (apply Z.mod_pos_bound; lia).
  assert (H5 : Z.testbit v 5 = true).
  { unfold v. change 256 with (2 ^ 8).
    rewrite Z.mod_pow2_bits_low by lia. rewrite Z.lor_spec. reflexivity. }
  assert (H4 : Z.testbit v 4 = true).
  { unfold v. change 256 with (2 ^ 8).
    rewrite Z.mod_pow2_bits_low by lia. rewrite Z.lor_spec. reflexivity. }
  rewrite Z.testbit_true in H5, H4 by lia.
  change (2 ^ 5) with 32 in H5. change (2 ^ 4) with 16 in H4.
  assert (Hge : 48 <= v) by (Z.div_mod_to_equations; lia).
  rewrite N_ascii_embedding by lia.
  apply N.leb_le. lia.
Qed.

Lemma from_zero_not_comma (c : ascii) :
  from_zero c = true -> not_comma c = true.
Proof.
  unfold not_comma. destruct (Ascii.eqb_spec c ",") as [-> | _];
    [vm_compute; congruence | reflexivity].
Qed.

Lemma from_zero_not_dot (c : ascii) : from_zero c = true -> not_dot c = true.
Proof.
  unfold not_dot. destruct (Ascii.eqb_spec c ".") as [-> | _];
    [vm_compute; congruence | reflexivity].
Qed.

Lemma emit_digits_step (rest prec : nat) (number : float) :
  exists c number',
    from_zero c = true
    /\ WString.emit_digits (S rest) prec number
       = if (Nat.eqb rest prec && negb (Nat.eqb prec 0))%bool
         then String c (String "." (WString.emit_digits rest prec number'))
         else String c (WString.emit_digits rest prec number').
Proof.
  cbn [WString.emit_digits].
  eexists. eexists. split; [|reflexivity]. apply or_zero_char_from_zero.
Qed.

Lemma emit_digits_no_comma (k prec : nat) :
  forall number,
    all_chars not_comma (WString.emit_digits k prec number) = true.
Proof.
  induction k as [|rest IH]; intros number; [reflexivity|].
  destruct (emit_digits_step rest prec number) as (c & number' & Hc & ->).
  apply from_zero_not_comma in Hc.
  destruct (Nat.eqb rest prec && negb (Nat.eqb prec 0))%bool;
    cbn [all_chars]; rewrite Hc, IH; reflexivity.
Qed.

Lemma emit_digits_tail (k prec : nat) :
  (k <= prec)%nat ->
  forall number,
    all_chars from_zero (WString.emit_digits k prec number) = true
    /\ String.length (WString.emit_digits k prec number) = k.
Proof.
  induction k as [|rest IH]; intros Hle number; [split; reflexivity|].
  destruct (emit_digits_step rest prec number) as (c & number' & Hc & ->).
  assert (Hne : Nat.eqb rest prec = false) by (apply Nat.eqb_neq; lia).
  rewrite Hne. cbn [andb all_chars String.length].
  destruct (IH ltac:(lia) number') as [Ha Hl].
  rewrite Hc, Ha, Hl. split; reflexivity.
Qed.

Lemma emit_digits_whole (k : nat) :
  forall number,
    all_chars from_zero (WString.emit_digits k 0 number) = true.
Proof.
  induction k as [|rest IH]; intros number; [reflexivity|].
  destruct (emit_digits_step rest 0 number) as (c & number' & Hc & ->).
  cbn [Nat.eqb negb]. rewrite andb_false_r.
  cbn [all_chars]. rewrite Hc, IH. reflexivity.
Qed.

Lemma emit_digits_point (n prec : nat) :
  (0 < prec)%nat ->
  forall number,
  exists whole frac,
    WString.emit_digits (S n + prec) prec number
    = (whole ++ String "." frac)%string
    /\ all_chars from_zero whole = true
    /\ all_chars from_zero frac = true
    /\ String.length frac = prec.
Proof.
  intros Hp. induction n as [|n IH]; intros number.
  - cbn [Nat.add].
    destruct (emit_digits_step prec prec number) as (c & number' & Hc & ->).
    rewrite Nat.eqb_refl.
    assert (Hz : Nat.eqb prec 0 = false) by (apply Nat.eqb_neq; lia).
    rewrite Hz. cbn [andb negb].
    destruct (emit_digits_tail prec prec (le_n prec) number') as [Ha Hl].
    exists (String c EmptyString), (WString.emit_digits prec prec number').
    cbn [append all_chars]. rewrite Hc. repeat split; assumption.
  - change (S (S n) + prec)%nat with (S (S n + prec)).
    destruct (emit_digits_step (S n + prec) prec number)
      as (c & number' & Hc & ->).
    assert (Hne : Nat.eqb (S n + prec) prec = false)
      by (apply Nat.eqb_neq; lia).
    rewrite Hne. cbn [andb].
    destruct (IH number') as (whole & frac & -> & Hw & Hf & Hl).
    exists (String c whole), frac.
    cbn [append all_chars]. rewrite Hc, Hw. repeat split; assumption.
Qed.

Lemma magnitude_count (fuel : nat) :
  forall number tenpow digitcount,
    (digitcount <= snd (WString.magnitude fuel number tenpow digitcount))%nat.
Proof.
  induction fuel as [|fuel IH]; intros number tenpow digitcount.
  - cbn. lia.
  - cbn [WString.magnitude].
    destruct (WString.ten * tenpow <=? number)%float; [|cbn; lia].
    specialize (IH number (tenpow * WString.ten)%float (S digitcount)). lia.
Qed.

Lemma spaces_chars (p : ascii -> bool) (n : nat) :
  p " "%char = true -> all_chars p (WString.spaces n) = true.
Proof.
  intros H. induction n as [|n IH]; [reflexivity|].
  cbn [WString.spaces all_chars]. rewrite H, IH. reflexivity.
Qed.

Lemma of_float_no_comma (value : float) (decimalPlaces : nat) :
  all_chars not_comma (WString.of_float value decimalPlaces) = true.
Proof.
  unfold WString.of_float, WString.dtostrf.
  destruct (is_nan value); [reflexivity|].
  destruct (is_infinity value); [reflexivity|].
  destruct (WString.magnitude _ _ _ _) as [tenpow digitcount].
  rewrite !all_chars_app, emit_digits_no_comma.
  rewrite spaces_chars by reflexivity.
  destruct (value <? 0)%float; reflexivity.
Qed.

Lemma of_float_one_decimal (value : float) :
  is_nan value = false -> is_infinity value = false ->
  exists lead frac,
    WString.of_float value 1 = (lead ++ String "." frac)%string
    /\ all_chars not_dot lead = true
    /\ all_chars from_zero frac = true
    /\ String.length frac = 1%nat.
Proof.
  intros Hnan Hinf. unfold WString.of_float, WString.dtostrf.
  rewrite Hnan, Hinf.
  match goal with
  | |- context [WString.magnitude ?f ?n ?t ?d] =>
      pose proof (magnitude_count f n t d) as Hc;
      destruct (WString.magnitude f n t d) as [tenpow digitcount]
  end.
  cbn [snd] in Hc. destruct digitcount as [|n]; [lia|].
  match goal with
  | |- context [WString.emit_digits _ _ ?x] =>
      destruct (emit_digits_point n 1 Nat.lt_0_1 x)
        as (whole & frac & -> & Hw & Hf & Hl)
  end.
  eexists. exists frac. rewrite <- !append_assoc. split; [reflexivity|].
  split; [|split; assumption].
  rewrite !all_chars_app.
  rewrite spaces_chars by reflexivity.
  rewrite (all_chars_weaken _ _ _ from_zero_not_dot Hw).
  destruct (value <? 0)%float; reflexivity.
Qed.

Lemma of_float_no_decimal (value : float) :
  is_nan value = false -> is_infinity value = false ->
  all_chars not_dot (WString.of_float value 0) = true.
Proof.
  intros Hnan Hinf. unfold WString.of_float, WString.dtostrf.
  rewrite Hnan, Hinf.
  destruct (WString.magnitude _ _ _ _) as [tenpow digitcount].
  rewrite !all_chars_app.
  rewrite spaces_chars by reflexivity.
  rewrite (all_chars_weaken _ _ _ from_zero_not_dot (emit_digits_whole _ _)).
  destruct (value <? 0)%float; reflexivity.
Qed.

Lemma telemetry_fields (soil : Z) (t h : float) (ok : bool) :
  fields (telemetry soil t h ok)
  = [WString.of_int soil; WString.of_float t 1; WString.of_float h 0;
     if ok then "1" else "0"]%string.
Proof.
  unfold telemetry.
  change ("," ++ ?x)%string with (String "," x).
  rewrite (fields_app _ _ (of_int_no_comma soil)).
  change ("," ++ ?x)%string with (String "," x).
  rewrite (fields_app _ _ (of_float_no_comma t 1)).
  change ("," ++ ?x)%string with (String "," x).
  rewrite (fields_app _ _ (of_float_no_comma h 0)).
  destruct ok; reflexivity.
Qed.

Lemma telemetry_seven_bit (soil : Z) (t h : float) (ok : bool) :
  all_chars seven_bit (WString.of_float t 1) = true ->
  all_chars seven_bit (WString.of_float h 0) = true ->
  all_chars seven_bit (telemetry soil t h ok) = true.
Proof.
  intros Ht Hh. unfold telemetry.
  rewrite !all_chars_app, Ht, Hh, !of_int_seven_bit. reflexivity.
Qed.

Lemma tick_publishes (env : Env) (s : State) :
  publishes (trace_of (tick env s))
  = if connectedPublish env
    then [(DATA_TOPIC,
           telemetry (soil_percent (adcSoil env)) (dhtTemperature env)
             (dhtHumidity env)
             (water_gate INVERT_WATER_LOGIC (adcWater env)))]
    else [].
Proof.
  rewrite tick_trace, !publishes_app, actuate_state.
  assert (Ha : publishes (trace_of (actuate (sampled env s))) = []).
  { rewrite actuate_eq. destruct (decide _ _ _); [reflexivity|].
    destruct (waterOk _); reflexivity. }
  rewrite Ha. unfold report.
  destruct (connectedPublish env); reflexivity.
Qed.

(** ** Digits of a binary64 value

    The digit loop of [dtostrf] keeps its argument between zero and ten,
    so every character it writes is a decimal digit.  The bounds are on
    the mantissa and the exponent of the value, through the rounding of
    each operation. *)

Lemma fexp64 (x : Z) : fexp prec emax x = Z.max (x - 53) (-1074).
Proof. reflexivity. Qed.

Lemma iter_pos_nat {A : Type} (f : A -> A) (p : positive) :
  forall x, iter_pos f p x = Nat.iter (Pos.to_nat p) f x.
Proof.
  induction p as [p IH | p IH |]; intros x; cbn [iter_pos].
  - rewrite !IH, Pos2Nat.inj_xI, <- Nat.iter_add, <- Nat.iter_succ_r.
    f_equal. lia.
  - rewrite !IH, Pos2Nat.inj_xO, <- Nat.iter_add. f_equal. lia.
  - reflexivity.
Qed.

Lemma shr_1_spec (mrs : shr_record) :
  0 <= shr_m mrs ->
  shr_m (shr_1 mrs) = shr_m mrs / 2
  /\ shr_r (shr_1 mrs) = Z.odd (shr_m mrs).
Proof.
  destruct mrs as [m r s]. cbn [shr_m]. intros Hm.
  rewrite <- Z.div2_div.
  destruct m as [|[p|p|]|p]; try lia; split; reflexivity.
Qed.

Lemma shr_nat_spec (k : nat) (mrs : shr_record) :
  0 <= shr_m mrs ->
  shr_m (Nat.iter k shr_1 mrs) = shr_m mrs / 2 ^ Z.of_nat k
  /\ (shr_r (Nat.iter k shr_1 mrs) = true -> (0 < k)%nat ->
      shr_m mrs mod 2 ^ Z.of_nat k <> 0).
Proof.
  intros Hm. induction k as [|k [IHm IHr]].
  - cbn. rewrite Z.div_1_r. split; [reflexivity | lia].
  - rewrite Nat.iter_succ.
    assert (Hk : 0 <= shr_m (Nat.iter k shr_1 mrs))
      by (rewrite IHm; apply Z.div_pos; lia).
    destruct (shr_1_spec _ Hk) as [H1 H2].
    rewrite H1, H2, IHm, Nat2Z.inj_succ, Z.pow_succ_r by lia.
    split.
    + rewrite Z.div_div by lia. f_equal. lia.
    + intros Hodd _ Hmod.
      apply Z.mod_divide in Hmod; [|lia].
      destruct Hmod as [q Hq]. rewrite Hq in Hodd.
      replace (q * (2 * 2 ^ Z.of_nat k)) with ((2 * q) * 2 ^ Z.of_nat k)
        in Hodd by ring.
      rewrite Z.div_mul in Hodd by lia.
      rewrite Z.odd_mul in Hodd. discriminate Hodd.
Qed.

(** The right shift of the rounding functions, for a mantissa that is
    not negative: the exponent grows by [n], the mantissa is divided by
    [2^n], and the round bit is set only when that division is inexact or,
    without a shift, when the location is. *)
Lemma shr_fexp_spec (m e : Z) (l : location) :
  0 <= m ->
  let n := Z.max 0 (fexp prec emax (Zdigits2 m + e) - e) in
  let r := shr_fexp prec emax m e l in
  snd r = e + n
  /\ shr_m (fst r) = m / 2 ^ n
  /\ (shr_r (fst r) = true ->
      m mod 2 ^ n <> 0 \/ (n = 0 /\ l <> loc_Exact)).
Proof.
  intros Hm n r. subst n r. unfold shr_fexp, shr.
  assert (Hrec : shr_m (shr_record_of_loc m l) = m)
    by (destruct l as [|[]]; reflexivity).
  destruct (fexp prec emax (Zdigits2 m + e) - e) as [|p|p] eqn:E.
  - cbn [fst snd Z.max]. rewrite Z.add_0_r, Z.div_1_r.
    repeat split; [exact Hrec|].
    intros Hr. right. split; [reflexivity|].
    intros ->. discriminate Hr.
  - cbn [fst snd]. rewrite iter_pos_nat.
    replace (Z.max 0 (Z.pos p)) with (Z.of_nat (Pos.to_nat p)) by lia.
    destruct (shr_nat_spec (Pos.to_nat p) (shr_record_of_loc m l))
      as [H1 H2]; [rewrite Hrec; exact Hm|].
    rewrite Hrec in *. split; [lia|]. split; [exact H1|].
    intros Hr. left. apply H2; [exact Hr | lia].
  - cbn [fst snd]. replace (Z.max 0 (Z.neg p)) with 0 by lia.
    rewrite Z.add_0_r, Z.div_1_r.
    repeat split; [exact Hrec|].
    intros Hr. right. split; [reflexivity|].
    intros ->. discriminate Hr.
Qed.

Lemma digits2_pos_size (p : positive) : digits2_pos p = Pos.size p.
Proof. induction p; cbn; congruence. Qed.

Lemma Zdigits2_log2 (m : Z) : 0 < m -> Zdigits2 m = Z.log2 m + 1.
Proof.
  destruct m as [|p|p]; try lia. intros _. cbn [Zdigits2].
  rewrite digits2_pos_size.
  destruct p; cbn [Z.log2 Pos.size]; lia.
Qed.

Lemma Zdigits2_zero : Zdigits2 0 = 0.
Proof. reflexivity. Qed.

(** A mantissa bounded by [b * 2^k] has at most [k] digits more than
    [b]. *)
Lemma Zdigits2_bound (m b k : Z) :
  0 <= m -> 0 < b -> 0 <= k -> m <= b * 2 ^ k ->
  Zdigits2 m <= Zdigits2 b + k.
Proof.
  intros Hm Hb Hk Hle.
  destruct (Z.eq_dec m 0) as [-> | Hne].
  - rewrite Zdigits2_zero, Zdigits2_log2 by lia.
    pose proof (Z.log2_nonneg b). lia.
  - rewrite !Zdigits2_log2 by lia.
    pose proof (Z.log2_le_mono m (b * 2 ^ k) Hle) as H.
    rewrite Z.log2_mul_pow2 in H by lia. lia.
Qed.

Lemma round_nearest_even_spec (m : Z) (mrs : shr_record) :
  let m1 := round_nearest_even m (loc_of_shr_record mrs) in
  m1 = m \/ (m1 = m + 1 /\ shr_r mrs = true).
Proof.
  destruct mrs as [m0 [] []]; cbn [loc_of_shr_record round_nearest_even shr_r].
  - right. split; reflexivity.
  - destruct (Z.even m); [left | right; split]; reflexivity.
  - left. reflexivity.
  - left. reflexivity.
Qed.

Lemma pow2_pos (k : Z) : 0 <= k -> 0 < 2 ^ k.
Proof. intros H. apply Z.pow_pos_nonneg; lia. Qed.

Lemma pow2_split (a b : Z) : 0 <= a -> 0 <= b -> 2 ^ (a + b) = 2 ^ a * 2 ^ b.
Proof. intros. apply Z.pow_add_r; assumption. Qed.

(** Rounding does not pass a bound: when the value to round, [mx * 2^ex]
    or a little more as [lx] tells, is at most [b * 2^t], and [b * 2^t] is
    on the grid of the format at that magnitude, the rounded float is
    zero or at most [b * 2^t] as well. *)
Lemma round_aux_at_most (s : bool) (mx ex : Z) (lx : location) (b t : Z) :
  0 <= mx -> 0 < b -> Zdigits2 b <= 53 -> ex <= t ->
  -1074 <= t -> t <= 971 ->
  mx <= b * 2 ^ (t - ex) ->
  (lx <> loc_Exact -> mx < b * 2 ^ (t - ex)) ->
  match binary_round_aux prec emax s mx ex lx with
  | S754_zero s' => s' = s
  | S754_finite s' m e => s' = s /\ e <= t /\ Z.pos m <= b * 2 ^ (t - e)
  | _ => False
  end.
Proof.
  intros Hm Hb Hdb Hex Htl Hth Hle Hlt.
  unfold binary_round_aux.
  pose proof (shr_fexp_spec mx ex lx Hm) as H1. cbv zeta in H1.
  destruct (shr_fexp prec emax mx ex lx) as [mrs1 e1]. cbn [fst snd] in H1.
  rewrite fexp64 in H1.
  set (n := Z.max 0 (Z.max (Zdigits2 mx + ex - 53) (-1074) - ex)) in H1.
  destruct H1 as (He1 & Hm1 & Hr1).
  pose proof (Zdigits2_bound mx b (t - ex) Hm Hb ltac:(lia) Hle) as Hd.
  assert (Hn : 0 <= n) by (subst n; lia).
  assert (He1t : e1 <= t) by (subst n; lia).
  assert (Hsplit : 2 ^ (t - ex) = 2 ^ (t - e1) * 2 ^ n).
  { rewrite <- pow2_split by lia. f_equal. lia. }
  clearbody n.
  pose proof (pow2_pos n Hn) as Hpn.
  pose proof (pow2_pos (t - e1) ltac:(lia)) as Hpq.
  set (Bq := b * 2 ^ (t - e1)).
  assert (HBq : b * 2 ^ (t - ex) = Bq * 2 ^ n)
    by (subst Bq; rewrite Hsplit; ring).
  rewrite HBq in Hle, Hlt.
  assert (Hq1 : shr_m mrs1 <= Bq)
    by (rewrite Hm1; apply Z.div_le_upper_bound; lia).
  assert (Hq0 : 0 <= shr_m mrs1) by (rewrite Hm1; apply Z.div_pos; lia).
  set (m1 := round_nearest_even (shr_m mrs1) (loc_of_shr_record mrs1)).
  assert (Hm1b : 0 <= m1 <= Bq).
  { destruct (round_nearest_even_spec (shr_m mrs1) mrs1) as [E | [E Hr]];
      fold m1 in E; rewrite E; [lia|].
    split; [lia|].
    assert (shr_m mrs1 < Bq); [|lia].
    destruct (Hr1 Hr) as [Hmod | [Hn0 Hl]].
    - rewrite Hm1. apply Z.div_lt_upper_bound; [lia|].
      assert (mx <> Bq * 2 ^ n); [|lia].
      intros ->. apply Hmod. apply Z.mod_mul. lia.
    - rewrite Hm1. subst n. rewrite Z.div_1_r.
      specialize (Hlt Hl). lia. }
  clearbody m1.
  pose proof (shr_fexp_spec m1 e1 loc_Exact (proj1 Hm1b)) as H2.
  cbv zeta in H2.
  destruct (shr_fexp prec emax m1 e1 loc_Exact) as [mrs2 e2].
  cbn [fst snd] in H2. rewrite fexp64 in H2.
  set (n2 := Z.max 0 (Z.max (Zdigits2 m1 + e1 - 53) (-1074) - e1)) in H2.
  destruct H2 as (He2 & Hm2 & _).
  pose proof (Zdigits2_bound m1 b (t - e1) (proj1 Hm1b) Hb ltac:(lia)
                (proj2 Hm1b)) as Hd2.
  assert (Hn2 : 0 <= n2) by (subst n2; lia).
  assert (He2t : e2 <= t) by (subst n2; lia).
  assert (Hsplit2 : 2 ^ (t - e1) = 2 ^ (t - e2) * 2 ^ n2).
  { rewrite <- pow2_split by lia. f_equal. lia. }
  clearbody n2.
  pose proof (pow2_pos n2 Hn2) as Hpn2.
  pose proof (pow2_pos (t - e2) ltac:(lia)) as Hpq2.
  assert (Hq2 : 0 <= shr_m mrs2 <= b * 2 ^ (t - e2)).
  { rewrite Hm2. split; [apply Z.div_pos; lia|].
    apply Z.div_le_upper_bound; [lia|].
    subst Bq. rewrite Hsplit2 in Hm1b.
    replace (2 ^ n2 * (b * 2 ^ (t - e2)))
      with (b * (2 ^ (t - e2) * 2 ^ n2)) by ring.
    lia. }
  destruct (shr_m mrs2) as [|p|p]; [reflexivity | | lia].
  replace (e2 <=? emax - prec) with true
    by (symmetry; apply Z.leb_le; change (emax - prec) with 971; lia).
  repeat split; lia.
Qed.

Lemma shl_align_spec (mx : positive) (ex ex' : Z) :
  snd (shl_align mx ex ex') = Z.min ex ex'
  /\ Z.pos (fst (shl_align mx ex ex'))
     = Z.pos mx * 2 ^ (ex - Z.min ex ex').
Proof.
  unfold shl_align. destruct (ex' - ex) as [|d|d] eqn:E; cbn [fst snd].
  - replace (Z.min ex ex') with ex by lia. rewrite Z.sub_diag. split; lia.
  - replace (Z.min ex ex') with ex by lia. rewrite Z.sub_diag. split; lia.
  - replace (Z.min ex ex') with ex' by lia. split; [reflexivity|].
    change (Pos.iter xO mx d) with (shift_pos d mx).
    rewrite shift_pos_correct, Z.pow_pos_fold.
    replace (ex - ex') with (Z.pos d) by lia. ring.
Qed.

Lemma round_aux_sign (s : bool) (mx ex : Z) (lx : location) :
  match binary_round_aux prec emax s mx ex lx with
  | S754_zero s' | S754_infinity s' | S754_finite s' _ _ => s' = s
  | S754_nan => True
  end.
Proof.
  unfold binary_round_aux.
  destruct (shr_fexp prec emax mx ex lx) as [mrs1 e1].
  destruct (shr_fexp prec emax _ e1 loc_Exact) as [mrs2 e2].
  destruct (shr_m mrs2); [reflexivity | | exact I].
  destruct (e2 <=? emax - prec); reflexivity.
Qed.

Lemma SFadd_not_negative (x : spec_float) (mc : positive) (ec : Z) :
  not_negative x ->
  not_negative (SFadd prec emax x (S754_finite false mc ec)).
Proof.
  destruct x as [s | s | | s m e]; cbn [not_negative SFadd].
  - intros _. reflexivity.
  - intros ->. reflexivity.
  - intros _. exact I.
  - intros ->. cbn [cond_Zopp Z.add binary_normalize]. unfold binary_round.
    destruct (shl_align _ _ _) as [mz ez].
    pose proof (round_aux_sign false (Z.pos mz) ez loc_Exact) as H.
    destruct (binary_round_aux prec emax false (Z.pos mz) ez loc_Exact);
      cbn [not_negative]; auto.
Qed.

Lemma at_most_valid_exponent (s : bool) (m : positive) (e : Z) :
  valid_binary (S754_finite s m e) = true ->
  e <= 1 -> Z.pos m <= 5 * 2 ^ (1 - e) -> e <= -49.
Proof.
  cbn [SpecFloat.valid_binary]. unfold bounded, canonical_mantissa.
  intros H He Hm. apply andb_true_iff in H. destruct H as [Hc _].
  apply Z.eqb_eq in Hc. rewrite fexp64 in Hc.
  pose proof (Zdigits2_bound (Z.pos m) 5 (1 - e) ltac:(lia) ltac:(lia)
                ltac:(lia) Hm) as Hd.
  cbn [Zdigits2] in Hd. change (Z.pos (digits2_pos 5)) with 3 in Hd. lia.
Qed.

Lemma valid_mantissa_bound (s : bool) (m : positive) (e : Z) :
  valid_binary (S754_finite s m e) = true ->
  Z.pos m < 2 ^ 53 /\ -1074 <= e <= 971.
Proof.
  cbn [SpecFloat.valid_binary]. unfold bounded, canonical_mantissa.
  intros H. apply andb_true_iff in H. destruct H as [Hc He].
  apply Z.eqb_eq in Hc. apply Z.leb_le in He. rewrite fexp64 in Hc.
  change (emax - prec) with 971 in He.
  assert (Hd : Zdigits2 (Z.pos m) <= 53) by (cbn [Zdigits2]; lia).
  rewrite Zdigits2_log2 in Hd by lia.
  destruct (Z.log2_spec (Z.pos m) ltac:(lia)) as [_ Hlt].
  split; [|lia].
  apply Z.lt_le_trans with (1 := Hlt).
  apply Z.pow_le_mono_r; lia.
Qed.

(** Truncation of a float that is positive and at most ten. *)
Lemma trunc_int8_at_most (x : float) (m : positive) (e : Z) :
  Prim2SF x = S754_finite false m e ->
  e <= -49 -> Z.pos m <= 5 * 2 ^ (1 - e) ->
  WString.trunc_int8 x = Z.pos m / 2 ^ (- e)
  /\ 0 <= Z.pos m / 2 ^ (- e) <= 10.
Proof.
  intros Hx He Hm.
  pose proof (pow2_pos (- e) ltac:(lia)) as Hp.
  assert (Hs : 2 ^ (1 - e) = 2 * 2 ^ (- e)).
  { replace (1 - e) with (1 + - e) by lia. rewrite pow2_split by lia.
    reflexivity. }
  assert (Hq : 0 <= Z.pos m / 2 ^ (- e) <= 10).
  { split; [apply Z.div_pos; lia|].
    apply Z.div_le_upper_bound; lia. }
  split; [|exact Hq].
  unfold WString.trunc_int8. rewrite Hx.
  replace (0 <=? e) with false by (symmetry; apply Z.leb_gt; lia).
  rewrite Z.shiftr_div_pow2 by lia.
  rewrite Z.mod_small by lia. lia.
Qed.

Lemma trunc_int8_other (x : float) :
  (forall s m e, Prim2SF x <> S754_finite s m e) ->
  WString.trunc_int8 x = 0.
Proof.
  intros H. unfold WString.trunc_int8.
  destruct (Prim2SF x) as [s | s | | s m e]; try reflexivity.
  exfalso. exact (H s m e eq_refl).
Qed.

Lemma ten_spec : Prim2SF WString.ten = S754_finite false 5629499534213120 (-49).
Proof. reflexivity. Qed.

(** Ten times a float that is at most one is at most ten. *)
Lemma mul_ten_at_most (r : float) :
  at_most 1 0 (Prim2SF r) -> at_most 5 1 (Prim2SF (r * WString.ten)%float).
Proof.
  rewrite mul_spec, ten_spec. unfold SF64mul.
  destruct (Prim2SF r) as [s | s | | s m e]; cbn [at_most SFmul];
    try tauto.
  intros (-> & He & Hm). cbn [xorb].
  pose proof (pow2_pos (- e) ltac:(lia)) as Hp.
  pose proof (round_aux_at_most false
                (Z.pos (m * 5629499534213120)) (e + -49) loc_Exact 5 1)
    as H.
  destruct (binary_round_aux prec emax false _ (e + -49) loc_Exact);
    cbn [at_most]; try exact I; apply H; try lia;
    try (vm_compute; discriminate);
    try (intros Hl; exfalso; apply Hl; reflexivity).
  all: rewrite Pos2Z.inj_mul;
    replace (1 - (e + -49)) with (50 + - e) by lia;
    rewrite pow2_split by lia;
    replace (0 - e) with (- e) in Hm by lia;
    change (Z.pos 5629499534213120) with (5 * 2 ^ 50); nia.
Qed.

Lemma SFsub_digit_at_most (m : positive) (e : Z) (md : positive) (ed d : Z) :
  e <= 0 -> ed <= 0 -> Z.pos md = d * 2 ^ (- ed) ->
  d * 2 ^ (- e) <= Z.pos m <= (d + 1) * 2 ^ (- e) ->
  at_most 1 0
    (SFsub prec emax (S754_finite false m e) (S754_finite false md ed)).
Proof.
  intros He Hed Hmd Hm. cbn [SFsub cond_Zopp].
  set (ez := Z.min e ed).
  destruct (shl_align_spec m e ez) as [_ H1].
  destruct (shl_align_spec md ed ez) as [_ H2].
  replace (Z.min e ez) with ez in H1 by (subst ez; lia).
  replace (Z.min ed ez) with ez in H2 by (subst ez; lia).
  rewrite H1, H2, Hmd.
  assert (Hez : ez <= e /\ ez <= ed /\ ez <= 0) by (subst ez; lia).
  clearbody ez.
  assert (P1 : 2 ^ (- ez) = 2 ^ (- e) * 2 ^ (e - ez))
    by (rewrite <- pow2_split by lia; f_equal; lia).
  assert (P2 : 2 ^ (- ez) = 2 ^ (- ed) * 2 ^ (ed - ez))
    by (rewrite <- pow2_split by lia; f_equal; lia).
  pose proof (pow2_pos (- e) ltac:(lia)) as Q1.
  pose proof (pow2_pos (e - ez) ltac:(lia)) as Q2.
  pose proof (pow2_pos (- ed) ltac:(lia)) as Q3.
  pose proof (pow2_pos (ed - ez) ltac:(lia)) as Q4.
  assert (Hdiff : 0 <= Z.pos m * 2 ^ (e - ez)
                       - d * 2 ^ (- ed) * 2 ^ (ed - ez) <= 2 ^ (- ez)).
  { rewrite <- Z.mul_assoc, <- P2, P1. nia. }
  destruct (Z.pos m * 2 ^ (e - ez) - d * 2 ^ (- ed) * 2 ^ (ed - ez))
    as [|p|p]; cbn [binary_normalize]; [exact I | | lia].
  unfold binary_round.
  destruct (shl_align_spec p ez
              (fexp prec emax (Z.pos (digits2_pos p) + ez))) as [H3 H4].
  destruct (shl_align p ez _) as [mz ez2]. cbn [fst snd] in H3, H4.
  assert (Hez2 : ez2 <= ez) by lia.
  rewrite <- H3 in H4.
  assert (P3 : 2 ^ (- ez2) = 2 ^ (- ez) * 2 ^ (ez - ez2))
    by (rewrite <- pow2_split by lia; f_equal; lia).
  pose proof (pow2_pos (- ez) ltac:(lia)) as Q5.
  pose proof (pow2_pos (ez - ez2) ltac:(lia)) as Q6.
  pose proof (round_aux_at_most false (Z.pos mz) ez2 loc_Exact 1 0) as H.
  destruct (binary_round_aux prec emax false (Z.pos mz) ez2 loc_Exact);
    cbn [at_most]; try exact I; apply H; try lia;
    try (vm_compute; discriminate);
    try (intros Hl; exfalso; apply Hl; reflexivity).
  all: replace (0 - ez2) with (- ez2) by lia; rewrite H4, P3; nia.
Qed.

Lemma digit_float_spec (d : Z) :
  1 <= d <= 9 ->
  exists md ed,
    Prim2SF (WString.float_of_digit d) = S754_finite false md ed
    /\ ed <= 0 /\ Z.pos md = d * 2 ^ (- ed).
Proof.
  intros H.
  assert (C : d = 1 \/ d = 2 \/ d = 3 \/ d = 4 \/ d = 5 \/ d = 6 \/ d = 7
              \/ d = 8 \/ d = 9) by lia.
  repeat (destruct C as [-> | C]); try subst d;
    eexists; eexists; (split; [reflexivity|]); split;
    solve [vm_compute; discriminate | reflexivity].
Qed.

Lemma digit_float_zero :
  Prim2SF (WString.float_of_digit 0) = S754_zero false.
Proof. reflexivity. Qed.

(** One round of the digit loop on a float that is at most ten: the digit
    lies between 0 and 9, and what is left of the float is at most one. *)
Lemma next_digit_at_most (x : float) :
  at_most 5 1 (Prim2SF x) ->
  0 <= next_digit x <= 9
  /\ at_most 1 0 (Prim2SF (x - WString.float_of_digit (next_digit x))%float).
Proof.
  intros Hx. pose proof (Prim2SF_valid x) as Hv.
  rewrite sub_spec. unfold SF64sub, next_digit.
  destruct (Prim2SF x) as [s | s | | s m e] eqn:E.
  - rewrite trunc_int8_other by (intros; rewrite E; discriminate).
    cbn [Z.gtb Z.compare]. rewrite digit_float_zero.
    split; [lia|]. destruct s; exact I.
  - destruct Hx.
  - rewrite trunc_int8_other by (intros; rewrite E; discriminate).
    split; [cbn; lia | exact I].
  - destruct Hx as (-> & He & Hm).
    pose proof (at_most_valid_exponent false m e Hv He Hm) as He'.
    destruct (trunc_int8_at_most x m e E He' Hm) as [-> Hq].
    pose proof (pow2_pos (- e) ltac:(lia)) as Hp.
    assert (Hs : 2 ^ (1 - e) = 2 * 2 ^ (- e)).
    { replace (1 - e) with (1 + - e) by lia. rewrite pow2_split by lia.
      reflexivity. }
    pose proof (Z.mul_div_le (Z.pos m) (2 ^ (- e)) Hp) as Hlow.
    pose proof (Z.mul_succ_div_gt (Z.pos m) (2 ^ (- e)) Hp) as Hup.
    set (q := Z.pos m / 2 ^ (- e)) in *.
    set (d := if q >? 9 then 9 else q).
    assert (Hd : 0 <= d <= 9 /\ d <= q /\ (q <= 9 -> d = q)
                 /\ (9 < q -> d = 9)).
    { subst d. destruct (q >? 9) eqn:G.
      - rewrite Z.gtb_ltb in G. apply Z.ltb_lt in G. lia.
      - rewrite Z.gtb_ltb in G. apply Z.ltb_ge in G. lia. }
    clearbody d. split; [lia|].
    destruct (Z.eq_dec d 0) as [-> | Hd0].
    + rewrite digit_float_zero. cbn [SFsub at_most].
      assert (q = 0) by lia.
      repeat split; [lia|]. replace (0 - e) with (- e) by lia. nia.
    + destruct (digit_float_spec d ltac:(lia)) as (md & ed & -> & Hed & Hmd).
      apply (SFsub_digit_at_most m e md ed d); try lia. nia.
Qed.

Lemma new_location_exact (nb k : Z) :
  new_location nb k <> loc_Exact -> k <> 0.
Proof.
  intros H ->. apply H. unfold new_location, new_location_even,
    new_location_odd.
  destruct (Z.even nb); reflexivity.
Qed.

(** A quotient of positive floats that is at most ten as a fraction is at
    most ten as a float. *)
Lemma SFdiv_at_most (m1 : positive) (e1 : Z) (mT : positive) (eT : Z) :
  -1100 <= e1 -> -1100 <= eT ->
  Z.pos m1 * 2 ^ (e1 + 1100) <= 10 * Z.pos mT * 2 ^ (eT + 1100) ->
  at_most 5 1
    (SFdiv prec emax (S754_finite false m1 e1) (S754_finite false mT eT)).
Proof.
  intros He1 HeT H. cbn [SFdiv]. unfold SFdiv_core_binary.
  rewrite fexp64.
  assert (Hlog : Zdigits2 (Z.pos m1) + e1 <= Zdigits2 (Z.pos mT) + eT + 4).
  { rewrite !Zdigits2_log2 by lia.
    pose proof (pow2_pos (eT + 1100) ltac:(lia)) as Q.
    assert (H16 : Z.pos m1 * 2 ^ (e1 + 1100)
                  <= Z.pos mT * 2 ^ (eT + 1100 + 4)).
    { rewrite (pow2_split (eT + 1100) 4) by lia.
      change (2 ^ 4) with 16. nia. }
    apply Z.log2_le_mono in H16.
    rewrite !Z.log2_mul_pow2 in H16 by lia. lia. }
  set (e' := Z.min (Z.max (Zdigits2 (Z.pos m1) + e1
                           - (Zdigits2 (Z.pos mT) + eT) - 53) (-1074))
               (e1 - eT)).
  assert (He' : e' <= -48 /\ e' <= e1 - eT) by (subst e'; lia).
  clearbody e'.
  set (s := e1 - eT - e').
  assert (Hs : 0 <= s) by (subst s; lia).
  assert (Hm' : match s with
                | 0 => Z.pos m1
                | Z.pos _ => Z.shiftl (Z.pos m1) s
                | Z.neg _ => 0
                end = Z.pos m1 * 2 ^ s).
  { destruct s as [|p|p] eqn:E; [lia | | lia].
    rewrite Z.shiftl_mul_pow2 by lia. reflexivity. }
  rewrite Hm'.
  pose proof (Z_div_mod (Z.pos m1 * 2 ^ s) (Z.pos mT) ltac:(lia)) as Hdiv.
  destruct (Z.div_eucl (Z.pos m1 * 2 ^ s) (Z.pos mT)) as [q r].
  destruct Hdiv as [Hq Hr]. cbn [xorb].
  pose proof (pow2_pos s Hs) as Qs.
  pose proof (pow2_pos (- e') ltac:(lia)) as Qe.
  pose proof (pow2_pos (eT + 1100) ltac:(lia)) as QT.
  assert (Hbound : Z.pos m1 * 2 ^ s <= 10 * 2 ^ (- e') * Z.pos mT).
  { assert (P : 2 ^ s * 2 ^ (eT + 1100) = 2 ^ (e1 + 1100) * 2 ^ (- e')).
    { rewrite <- !pow2_split by lia. f_equal. subst s. lia. }
    apply Z.mul_le_mono_pos_r with (p := 2 ^ (eT + 1100)); [exact QT|].
    replace (Z.pos m1 * 2 ^ s * 2 ^ (eT + 1100))
      with (Z.pos m1 * (2 ^ s * 2 ^ (eT + 1100))) by ring.
    rewrite P. nia. }
  assert (Hq0 : 0 <= q) by nia.
  assert (P1 : 5 * 2 ^ (1 - e') = 10 * 2 ^ (- e')).
  { replace (1 - e') with (1 + - e') by lia. rewrite pow2_split by lia.
    change (2 ^ 1) with 2. ring. }
  pose proof (round_aux_at_most false q e'
                (new_location (Z.pos mT) r) 5 1) as HK.
  destruct (binary_round_aux prec emax false q e'
              (new_location (Z.pos mT) r));
    cbn [at_most]; try exact I; apply HK; try lia;
    try (vm_compute; discriminate);
    try (rewrite P1; nia);
    try (intros Hl; apply new_location_exact in Hl; rewrite P1; nia).
Qed.

Lemma or_zero_char_digit (d : Z) :
  0 <= d <= 9 -> WString.isdigit (WString.or_zero_char d) = true.
Proof.
  intros H.
  assert (C : d = 0 \/ d = 1 \/ d = 2 \/ d = 3 \/ d = 4 \/ d = 5 \/ d = 6
              \/ d = 7 \/ d = 8 \/ d = 9) by lia.
  repeat (destruct C as [-> | C]); try subst d; reflexivity.
Qed.

Lemma emit_digits_step_digit (rest prec : nat) (number : float) :
  at_most 5 1 (Prim2SF number) ->
  exists c number',
    WString.isdigit c = true
    /\ at_most 5 1 (Prim2SF number')
    /\ WString.emit_digits (S rest) prec number
       = if (Nat.eqb rest prec && negb (Nat.eqb prec 0))%bool
         then String c (String "." (WString.emit_digits rest prec number'))
         else String c (WString.emit_digits rest prec number').
Proof.
  intros H. destruct (next_digit_at_most number H) as [Hd Hr].
  exists (WString.or_zero_char (next_digit number)).
  exists ((number - WString.float_of_digit (next_digit number))
          * WString.ten)%float.
  split; [apply or_zero_char_digit; exact Hd|].
  split; [apply mul_ten_at_most; exact Hr|].
  reflexivity.
Qed.

(** [magnitude] returns a power of ten, with its digit count, and stops
    because the loop condition fails or the rounds are used up. *)
Lemma magnitude_exit (fuel : nat) :
  forall number j,
  exists j',
    (j <= j' <= j + fuel)%nat
    /\ WString.magnitude fuel number (pow10f j) (S j) = (pow10f j', S j')
    /\ ((WString.ten * pow10f j' <=? number)%float = false
        \/ j' = (j + fuel)%nat).
Proof.
  induction fuel as [|fuel IH]; intros number j.
  - exists j. cbn [WString.magnitude].
    split; [lia|]. split; [reflexivity|]. right. lia.
  - cbn [WString.magnitude].
    destruct (WString.ten * pow10f j <=? number)%float eqn:E.
    + destruct (IH number (S j)) as (j' & Hj & Hm & Hc).
      exists j'. split; [lia|]. split; [exact Hm|].
      destruct Hc as [Hc | Hc]; [left; exact Hc | right; lia].
    + exists j. split; [lia|]. split; [reflexivity|]. left. exact E.
Qed.

(** The check holds on each of the 401 rounds [magnitude] can take. *)
Lemma pow10_table : forallb pow10_ok (seq 0 401) = true.
Proof. vm_compute. reflexivity. Qed.

Lemma pow10_ok_all (j : nat) : (j <= 400)%nat -> pow10_ok j = true.
Proof.
  intros H. pose proof pow10_table as T. rewrite forallb_forall in T.
  apply T. apply in_seq. lia.
Qed.

Lemma pow10f_overflow : Prim2SF (pow10f 400) = S754_infinity false.
Proof. vm_compute. reflexivity. Qed.

Lemma dyad_chain (m1 e1 a ea b eb : Z) :
  0 <= m1 <= a -> -1100 <= e1 <= ea ->
  dyad_le a ea b eb = true ->
  m1 * 2 ^ (e1 + 1100) <= b * 2 ^ (eb + 1100).
Proof.
  intros Hm He H. unfold dyad_le in H. apply Z.leb_le in H.
  apply Z.le_trans with (2 := H).
  assert (P : 2 ^ (e1 + 1100) <= 2 ^ (ea + 1100))
    by (apply Z.pow_le_mono_r; lia).
  pose proof (pow2_pos (e1 + 1100) ltac:(lia)) as Q.
  nia.
Qed.

Lemma not_negative_abs (x : float) :
  not_negative (Prim2SF (if (x <? 0)%float then (- x)%float else x)).
Proof.
  destruct (x <? 0)%float eqn:L; rewrite ltb_spec in L;
    change (Prim2SF 0) with (S754_zero false) in L;
    [rewrite opp_spec|];
    destruct (Prim2SF x) as [s | s | | s m e]; cbn [not_negative SFopp];
    try exact I; destruct s; try reflexivity; discriminate L.
Qed.

(** The value handed to the digit loop is at most ten: [magnitude] stops
    at the first power of ten whose tenfold is above the number, and the
    quotient by that power is rounded. *)
Lemma start_at_most (number tenpow : float) (digitcount : nat) :
  not_negative (Prim2SF number) ->
  WString.magnitude 400 number 1%float 1 = (tenpow, digitcount) ->
  (1 <= digitcount)%nat /\ at_most 5 1 (Prim2SF (number / tenpow)%float).
Proof.
  intros Hpos Hm.
  destruct (magnitude_exit 400 number 0) as (j & Hj & Hm' & Hc).
  change (pow10f 0) with 1%float in Hm'. rewrite Hm' in Hm.
  injection Hm as <- <-. split; [lia|].
  assert (Hfin : forall s m e,
             Prim2SF (pow10f j) = S754_finite s m e ->
             (WString.ten * pow10f j <=? number)%float = false).
  { intros s m e E. destruct Hc as [Hc | Hc]; [exact Hc|].
    exfalso. replace j with 400%nat in E by lia.
    rewrite pow10f_overflow in E. discriminate E. }
  pose proof (pow10_ok_all j ltac:(lia)) as T. unfold pow10_ok in T.
  rewrite div_spec. unfold SF64div.
  pose proof (Prim2SF_valid number) as V.
  destruct (Prim2SF (pow10f j)) as [sT | sT | | sT mT eT];
    [discriminate T | | discriminate T | ].
  - destruct (Prim2SF number) as [s1 | s1 | | s1 m1 e1];
      cbn [SFdiv at_most]; exact I.
  - destruct sT; [discriminate T|].
    specialize (Hfin _ _ _ eq_refl). rewrite leb_spec in Hfin.
    destruct (Prim2SF number) as [s1 | s1 | | s1 m1 e1];
      [exact I | | exact I | ].
    + cbn [not_negative] in Hpos. subst s1.
      destruct (Prim2SF (WString.ten * pow10f j)) as [sU | sU | | sU mU eU];
        try discriminate T; destruct sU; try discriminate T;
        discriminate Hfin.
    + cbn [not_negative] in Hpos. subst s1.
      destruct (valid_mantissa_bound _ _ _ V) as [Vm Ve].
      destruct (Prim2SF (WString.ten * pow10f j)) as [sU | sU | | sU mU eU];
        try discriminate T; destruct sU; try discriminate T.
      * apply andb_true_iff in T. destruct T as [T1 T2].
        apply Z.leb_le in T1.
        apply SFdiv_at_most; try lia.
        eapply dyad_chain; [ | | exact T2]; lia.
      * apply andb_true_iff in T. destruct T as [T T3].
        apply andb_true_iff in T. destruct T as [T T2].
        apply andb_true_iff in T. destruct T as [T0 T1].
        apply Z.leb_le in T0. apply Z.leb_le in T1.
        apply SFdiv_at_most; try lia.
        unfold SFleb, SFcompare in Hfin.
        destruct (Z.compare_spec eU e1) as [E | E | E];
          [ | discriminate Hfin | ].
        -- change (Pcompare mU m1 Eq) with (Pos.compare mU m1) in Hfin.
           destruct (Pos.compare_spec mU m1) as [P | P | P];
             try discriminate Hfin.
           eapply dyad_chain; [ | | exact T2]; lia.
        -- eapply dyad_chain; [ | | exact T3]; lia.
Qed.

(** The text of a finite value: blanks, the sign, and the digit loop run
    on a value that is at most ten. *)
Lemma dtostrf_shape (x : float) (width : Z) (prec : nat)
      (mc : positive) (ec : Z) :
  Prim2SF (1 / WString.rounding_divisor prec 2)%float
  = S754_finite false mc ec ->
  is_nan x = false -> is_infinity x = false ->
  exists digitcount number,
    WString.dtostrf x width prec
    = (WString.spaces
         (Z.to_nat ((if Nat.eqb prec 0 then width
                     else width - (Z.of_nat prec + 1))
                    - (if (x <? 0)%float then 1 else 0)
                    - Z.of_nat (S digitcount)))
       ++ (if (x <? 0)%float then "-" else EmptyString)
       ++ WString.emit_digits (S digitcount + prec) prec number)%string
    /\ at_most 5 1 (Prim2SF number).
Proof.
  intros Hr Hnan Hinf. unfold WString.dtostrf. rewrite Hnan, Hinf.
  cbv zeta.
  set (number0 := if (x <? 0)%float then (- x)%float else x).
  set (number1 := (number0 + 1 / WString.rounding_divisor prec 2)%float).
  assert (Hpos : not_negative (Prim2SF number1)).
  { unfold number1. rewrite add_spec, Hr. apply SFadd_not_negative.
    apply not_negative_abs. }
  destruct (WString.magnitude 400 number1 1 1) as [tenpow digitcount] eqn:Hm.
  destruct (start_at_most _ _ _ Hpos Hm) as [Hd Ha].
  destruct digitcount as [|n]; [lia|].
  exists n, (number1 / tenpow)%float. split; [|exact Ha].
  destruct (x <? 0)%float; [reflexivity|].
  rewrite Z.sub_0_r. reflexivity.
Qed.

Lemma isdigit_seven_bit (c : ascii) :
  WString.isdigit c = true -> seven_bit c = true.
Proof.
  unfold WString.isdigit, seven_bit. intros H.
  apply andb_true_iff in H. destruct H as [_ H].
  apply N.leb_le in H. apply N.ltb_lt. lia.
Qed.

Lemma emit_digits_seven_bit (k prec : nat) :
  forall number,
    at_most 5 1 (Prim2SF number) ->
    all_chars seven_bit (WString.emit_digits k prec number) = true.
Proof.
  induction k as [|rest IH]; intros number Ha; [reflexivity|].
  destruct (emit_digits_step_digit rest prec number Ha)
    as (c & number' & Hc & Ha' & ->).
  apply isdigit_seven_bit in Hc.
  destruct (Nat.eqb rest prec && negb (Nat.eqb prec 0))%bool;
    cbn [all_chars]; rewrite Hc, (IH _ Ha'); reflexivity.
Qed.

Lemma emit_digits_tail_digits (k prec : nat) :
  (k <= prec)%nat ->
  forall number,
    at_most 5 1 (Prim2SF number) ->
    all_digits (WString.emit_digits k prec number) = true
    /\ String.length (WString.emit_digits k prec number) = k.
Proof.
  induction k as [|rest IH]; intros Hle number Ha; [split; reflexivity|].
  destruct (emit_digits_step_digit rest prec number Ha)
    as (c & number' & Hc & Ha' & ->).
  assert (Hne : Nat.eqb rest prec = false) by (apply Nat.eqb_neq; lia).
  rewrite Hne. cbn [andb all_digits String.length].
  destruct (IH ltac:(lia) number' Ha') as [Hd Hl].
  rewrite Hc, Hd, Hl. split; reflexivity.
Qed.

Lemma emit_digits_whole_digits (k : nat) :
  forall number,
    at_most 5 1 (Prim2SF number) ->
    all_digits (WString.emit_digits k 0 number) = true
    /\ String.length (WString.emit_digits k 0 number) = k.
Proof.
  induction k as [|rest IH]; intros number Ha; [split; reflexivity|].
  destruct (emit_digits_step_digit rest 0 number Ha)
    as (c & number' & Hc & Ha' & ->).
  cbn [Nat.eqb negb]. rewrite andb_false_r.
  cbn [all_digits String.length].
  destruct (IH number' Ha') as [Hd Hl].
  rewrite Hc, Hd, Hl. split; reflexivity.
Qed.

Lemma emit_digits_point_digits (n prec : nat) :
  (0 < prec)%nat ->
  forall number,
    at_most 5 1 (Prim2SF number) ->
    exists whole frac,
      WString.emit_digits (S n + prec) prec number
      = (whole ++ String "." frac)%string
      /\ all_digits whole = true
      /\ String.length whole = S n
      /\ all_digits frac = true
      /\ String.length frac = prec.
Proof.
  intros Hp. induction n as [|n IH]; intros number Ha.
  - cbn [Nat.add].
    destruct (emit_digits_step_digit prec prec number Ha)
      as (c & number' & Hc & Ha' & ->).
    rewrite Nat.eqb_refl.
    assert (Hz : Nat.eqb prec 0 = false) by (apply Nat.eqb_neq; lia).
    rewrite Hz. cbn [andb negb].
    destruct (emit_digits_tail_digits prec prec (le_n prec) number' Ha')
      as [Hd Hl].
    exists (String c EmptyString), (WString.emit_digits prec prec number').
    cbn [append all_digits String.length]. rewrite Hc.
    repeat split; assumption.
  - change (S (S n) + prec)%nat with (S (S n + prec)).
    destruct (emit_digits_step_digit (S n + prec) prec number Ha)
      as (c & number' & Hc & Ha' & ->).
    assert (Hne : Nat.eqb (S n + prec) prec = false)
      by (apply Nat.eqb_neq; lia).
    rewrite Hne. cbn [andb].
    destruct (IH number' Ha') as (whole & frac & -> & Hw & Hlw & Hf & Hl).
    exists (String c whole), frac.
    cbn [append all_digits String.length]. rewrite Hc, Hw, Hlw.
    repeat split; assumption.
Qed.

Lemma rounding_one_decimal :
  Prim2SF (1 / WString.rounding_divisor 1 2)%float
  = S754_finite false 7205759403792794 (-57).
Proof. vm_compute. reflexivity. Qed.

Lemma rounding_no_decimal :
  Prim2SF (1 / WString.rounding_divisor 0 2)%float
  = S754_finite false 4503599627370496 (-53).
Proof. vm_compute. reflexivity. Qed.

Lemma of_float_one_decimal_digits (t : float) :
  is_nan t = false -> is_infinity t = false ->
  exists whole frac,
    WString.of_float t 1 = ((if (t <? 0)%float then "-" else EmptyString)
       ++ whole ++ String "." frac)%string
    /\ all_digits whole = true
    /\ (1 <= String.length whole)%nat
    /\ all_digits frac = true
    /\ String.length frac = 1%nat.
Proof.
  intros Hnan Hinf. unfold WString.of_float.
  destruct (dtostrf_shape t (Z.of_nat 1 + 2) 1 _ _ rounding_one_decimal
              Hnan Hinf) as (n & number & -> & Ha).
  destruct (emit_digits_point_digits n 1 Nat.lt_0_1 number Ha)
    as (whole & frac & -> & Hw & Hlw & Hf & Hl).
  exists whole, frac.
  replace (Z.to_nat _) with 0%nat
    by (cbn [Nat.eqb]; destruct (t <? 0)%float; lia).
  cbn [WString.spaces append].
  repeat split; try assumption. lia.
Qed.

Lemma of_float_no_decimal_digits (h : float) :
  is_nan h = false -> is_infinity h = false ->
  exists pad whole,
    WString.of_float h 0
    = (WString.spaces pad
       ++ (if (h <? 0)%float then "-" else EmptyString) ++ whole)%string
    /\ (pad <= 1)%nat
    /\ all_digits whole = true
    /\ (1 <= String.length whole)%nat.
Proof.
  intros Hnan Hinf. unfold WString.of_float.
  destruct (dtostrf_shape h (Z.of_nat 0 + 2) 0 _ _ rounding_no_decimal
              Hnan Hinf) as (n & number & -> & Ha).
  rewrite Nat.add_0_r.
  destruct (emit_digits_whole_digits (S n) number Ha) as [Hd Hl].
  eexists. exists (WString.emit_digits (S n) 0 number).
  split; [reflexivity|].
  split; [cbn [Nat.eqb]; destruct (h <? 0)%float; lia|].
  split; [exact Hd|]. rewrite Hl. lia.
Qed.

Lemma of_float_seven_bit (x : float) (decimalPlaces : nat) :
  (decimalPlaces <= 1)%nat ->
  all_chars seven_bit (WString.of_float x decimalPlaces) = true.
Proof.
  intros Hp. unfold WString.of_float.
  destruct (is_nan x) eqn:Hnan;
    [unfold WString.dtostrf; rewrite Hnan; reflexivity|].
  destruct (is_infinity x) eqn:Hinf;
    [unfold WString.dtostrf; rewrite Hnan, Hinf; reflexivity|].
  assert (Hr : exists mc ec,
             Prim2SF (1 / WString.rounding_divisor decimalPlaces 2)%float
             = S754_finite false mc ec).
  { destruct decimalPlaces as [|[|p]]; [| |lia].
    - eexists. eexists. exact rounding_no_decimal.
    - eexists. eexists. exact rounding_one_decimal. }
  destruct Hr as (mc & ec & Hr).
  destruct (dtostrf_shape x (Z.of_nat decimalPlaces + 2) decimalPlaces
              _ _ Hr Hnan Hinf) as (n & number & -> & Ha).
  rewrite !all_chars_app, (emit_digits_seven_bit _ _ _ Ha).
  rewrite spaces_chars by reflexivity.
  destruct (x <? 0)%float; reflexivity.
Qed.

Lemma telemetry_plain (soil : Z) (t h : float) (ok : bool) :
  all_chars seven_bit (telemetry soil t h ok) = true.
Proof.
  unfold telemetry.
  rewrite !all_chars_app, !of_int_seven_bit.
  rewrite (of_float_seven_bit t 1), (of_float_seven_bit h 0) by lia.
  destruct ok; reflexivity.
Qed.

(** C5.  The payload of a tick is the four fields soil percentage,
    temperature, humidity and water flag, in that order and separated by
    commas.  The soil field holds decimal digits and minus signs only.  A
    finite temperature is written as an optional minus sign, one or more
    decimal digits, a dot and exactly one decimal digit; a finite humidity
    as at most one blank, an optional minus sign and one or more decimal
    digits, with no dot; the minus sign is there exactly when the value is
    below zero.  A reading that is not a number is written [nan], an
    infinite one [inf].  The water flag is 1 or 0.  Every payload is
    seven-bit text, whatever the readings.  Soil 42, temperature 23.4,
    humidity 55 and water present give ["42,23.4,55,1"].  A connected tick
    publishes this payload, built from the samples of that tick, on the
    data topic. *)
Theorem C5_telemetry_payload :
  (forall soil t h ok,
      fields (telemetry soil t h ok)
      = [WString.of_int soil; WString.of_float t 1; WString.of_float h 0;
         if ok then "1" else "0"]%string)
  /\ (forall soil, all_chars digit_or_minus (WString.of_int soil) = true)
  /\ (forall t,
         is_nan t = false -> is_infinity t = false ->
         exists whole frac,
           WString.of_float t 1
           = ((if (t <? 0)%float then "-" else EmptyString)
              ++ whole ++ String "." frac)%string
           /\ all_digits whole = true
           /\ (1 <= String.length whole)%nat
           /\ all_digits frac = true
           /\ String.length frac = 1%nat)
  /\ (forall h,
         is_nan h = false -> is_infinity h = false ->
         exists pad whole,
           WString.of_float h 0
           = (WString.spaces pad
              ++ (if (h <? 0)%float then "-" else EmptyString)
              ++ whole)%string
           /\ (pad <= 1)%nat
           /\ all_digits whole = true
           /\ (1 <= String.length whole)%nat)
  /\ (forall x places,
         is_nan x = true -> WString.of_float x places = "nan"%string)
  /\ (forall x places,
         is_nan x = false -> is_infinity x = true ->
         WString.of_float x places = "inf"%string)
  /\ (forall soil t h ok,
         all_chars seven_bit (telemetry soil t h ok) = true)
  /\ telemetry 42 float_23_4 55%float true = "42,23.4,55,1"%string
  /\ telemetry 42 double_23_4 55%float true = "42,23.4,55,1"%string
  /\ (forall env s,
         connectedPublish env = true ->
         publishes (trace_of (tick env s))
         = [(DATA_TOPIC,
             telemetry (soil_percent (adcSoil env)) (dhtTemperature env)
               (dhtHumidity env)
               (water_gate INVERT_WATER_LOGIC (adcWater env)))]).
Proof.
  split; [exact telemetry_fields|].
  split; [exact of_int_digits|].
  split; [exact of_float_one_decimal_digits|].
  split; [exact of_float_no_decimal_digits|].
  split.
  { intros x places H. unfold WString.of_float, WString.dtostrf.
    rewrite H. reflexivity. }
  split.
  { intros x places Hn Hi. unfold WString.of_float, WString.dtostrf.
    rewrite Hn, Hi. reflexivity. }
  split; [exact telemetry_plain|].
  split; [vm_compute; reflexivity|].
  split; [vm_compute; reflexivity|].
  intros env s H. rewrite tick_publishes, H. reflexivity.
Qed.

Lemma C5_telemetry_payload_witness :
  publishes (trace_of (tick sample_env init_state))
  = [(DATA_TOPIC, "42,23.4,55,1"%string)]
  /\ (exists whole frac,
         WString.of_float float_23_4 1
         = ((if (float_23_4 <? 0)%float then "-" else EmptyString)
            ++ whole ++ String "." frac)%string
         /\ all_digits whole = true
         /\ (1 <= String.length whole)%nat
         /\ all_digits frac = true
         /\ String.length frac = 1%nat).
Proof.
  destruct C5_telemetry_payload
    as (_ & _ & Htemp & _ & _ & _ & _ & _ & _ & Hpub).
  split.
  - rewrite (Hpub sample_env init_state eq_refl). vm_compute. reflexivity.
  - apply (Htemp float_23_4); vm_compute; reflexivity.
Defined.

(** ** Failed sensor reads *)

Lemma of_float_failed (x : float) (decimalPlaces : nat) :
  read_failed x = true -> WString.of_float x decimalPlaces = "nan"%string.
Proof.
  unfold read_failed, WString.of_float, WString.dtostrf.
  intros ->. reflexivity.
Qed.

Lemma tick_readings (env : Env) (s : State) :
  temp (state_of (tick env s)) = dhtTemperature env
  /\ hum (state_of (tick env s)) = dhtHumidity env.
Proof. rewrite tick_state, actuate_state. split; reflexivity. Qed.

Lemma tick_pump_view (t h : float) (env : Env) (s : State) :
  pump_view (tick (with_dht t h env) s) = pump_view (tick env s).
Proof.
  unfold pump_view.
  rewrite !tick_relay, !tick_delays, !tick_state, !actuate_relay,
    !actuate_delays, !actuate_state.
  cbn [sampled with_dht set_pumpOn autoWaterThreshold lastLoopTime soilPct
       waterLevelRaw waterOk pumpOn adcSoil adcWater millisStamp].
  reflexivity.
Qed.

(** C6.  A failed temperature or humidity read reaches the sketch as the
    "invalid" marker NaN.  A tick stores the marker as it is, writes the
    field of the payload as [nan], which holds no digit, and does the same
    to the pump, the relay and the rest of the state as with any other
    reading. *)
Theorem C6_failed_read_not_a_number :
  (forall env s,
      temp (state_of (tick env s)) = dhtTemperature env
      /\ hum (state_of (tick env s)) = dhtHumidity env)
  /\ (forall env s payload,
         read_failed (dhtTemperature env) = true ->
         In (DATA_TOPIC, payload) (publishes (trace_of (tick env s))) ->
         nth_error (fields payload) 1 = Some "nan"%string)
  /\ (forall env s payload,
         read_failed (dhtHumidity env) = true ->
         In (DATA_TOPIC, payload) (publishes (trace_of (tick env s))) ->
         nth_error (fields payload) 2 = Some "nan"%string)
  /\ all_chars no_digit "nan" = true
  /\ (forall t h env s,
         pump_view (tick (with_dht t h env) s) = pump_view (tick env s)).
Proof.
  split; [exact tick_readings|].
  split; [|split; [|split; [reflexivity | exact tick_pump_view]]].
  - intros env s payload Hf Hin. rewrite tick_publishes in Hin.
    destruct (connectedPublish env); [|contradiction].
    destruct Hin as [[= <-] | []].
    rewrite telemetry_fields, (of_float_failed _ 1 Hf). reflexivity.
  - intros env s payload Hf Hin. rewrite tick_publishes in Hin.
    destruct (connectedPublish env); [|contradiction].
    destruct Hin as [[= <-] | []].
    rewrite telemetry_fields, (of_float_failed _ 0 Hf). reflexivity.
Qed.

Lemma C6_failed_read_not_a_number_witness :
  publishes (trace_of (tick failed_dht_env init_state))
  = [(DATA_TOPIC, "42,nan,nan,1"%string)]
  /\ nth_error (fields "42,nan,nan,1") 1 = Some "nan"%string
  /\ nth_error (fields "42,nan,nan,1") 2 = Some "nan"%string.
Proof.
  assert (Hp : publishes (trace_of (tick failed_dht_env init_state))
               = [(DATA_TOPIC, "42,nan,nan,1"%string)])
    by (vm_compute; reflexivity).
  destruct C6_failed_read_not_a_number as (_ & Ht & Hh & _).
  split; [exact Hp|]. split.
  - apply (Ht failed_dht_env init_state); [reflexivity|].
    rewrite Hp. left. reflexivity.
  - apply (Hh failed_dht_env init_state); [reflexivity|].
    rewrite Hp. left. reflexivity.
Defined.

(** ** The pump interlock *)

Lemma run_trace_cons (env : Env) (rest : list Env) (s : State) :
  trace_of (run (env :: rest) s)
  = (trace_of (loop env s) ++ trace_of (run rest (state_of (loop env s))))%list.
Proof. cbn [run]. rewrite trace_of_bind. reflexivity. Qed.

Lemma sampled_pump_flag (env : Env) (s : State) (b : bool) :
  sampled env (set_pumpOn b s) = set_pumpOn b (sampled env s).
Proof.
  unfold sampled, set_pumpOn.
  cbn [autoWaterThreshold lastLoopTime temp hum soilPct waterLevelRaw
       waterOk pumpOn].
  reflexivity.
Qed.

(** C7.  A tick that turns the pump on writes the relay HIGH and then
    delays for [PUMP_SAFETY_DELAY]; nothing but the serial line lies
    between the two, no sensor is read after the write within the tick,
    and whatever a later call of [loop] does comes after the delay.  The
    pump flag before the tick does not matter.  A tick that turns the pump
    off, for lack of water or for moist soil, writes the relay LOW right
    after the reads and delays nowhere. *)
Theorem C7_pump_safety_delay :
  (forall env s,
      waterOk (sampled env s) = true ->
      soilPct (sampled env s) < autoWaterThreshold (sampled env s) ->
      relay_writes (trace_of (tick env s)) = [HIGH]
      /\ delays (trace_of (tick env s)) = [PUMP_SAFETY_DELAY]
      /\ exists post,
          trace_of (tick env s)
          = (tick_reads
             ++ [DigitalWrite RELAY_PIN HIGH;
                 SerialPrint (line "PUMP ON: Watering...");
                 Delay PUMP_SAFETY_DELAY]
             ++ post)%list
          /\ sensor_reads post = [] /\ relay_writes post = [])
  /\ (forall env s,
         waterOk (sampled env s) = false
         \/ autoWaterThreshold (sampled env s) <= soilPct (sampled env s) ->
         relay_writes (trace_of (tick env s)) = [LOW]
         /\ delays (trace_of (tick env s)) = []
         /\ exists post,
             trace_of (tick env s)
             = (tick_reads ++ DigitalWrite RELAY_PIN LOW :: post)%list)
  /\ (forall env s b,
         trace_of (tick env (set_pumpOn b s)) = trace_of (tick env s))
  /\ (forall env envs s,
         trace_of (run (env :: envs) s)
         = (trace_of (loop env s)
            ++ trace_of (run envs (state_of (loop env s))))%list).
Proof.
  split; [|split; [|split]].
  - intros env s Hw Hlt.
    rewrite tick_relay, tick_delays, tick_trace, actuate_relay,
      actuate_delays, actuate_eq.
    destruct (decide_cases (soilPct (sampled env s)) (waterOk (sampled env s))
                (autoWaterThreshold (sampled env s)))
      as [(Hw' & _) | [(_ & _ & ->) | (_ & Hge & _)]];
      [congruence | | lia].
    split; [reflexivity|]. split; [reflexivity|].
    eexists. split; [reflexivity|].
    cbn [state_of fst snd trace_of].
    destruct (report_quiet env (set_pumpOn true (sampled env s)))
      as (Hr & _ & Hs).
    split; assumption.
  - intros env s Hoff.
    rewrite tick_relay, tick_delays, tick_trace, actuate_relay,
      actuate_delays, actuate_eq.
    destruct (decide_cases (soilPct (sampled env s)) (waterOk (sampled env s))
                (autoWaterThreshold (sampled env s)))
      as [(Hw' & ->) | [(Hw' & Hlt & _) | (_ & _ & ->)]].
    + split; [reflexivity|]. split; [reflexivity|].
      eexists. reflexivity.
    + destruct Hoff as [Hoff | Hoff]; [congruence | lia].
    + split; [reflexivity|]. split; [reflexivity|].
      eexists. reflexivity.
  - intros env s b. rewrite !tick_trace, sampled_pump_flag, !actuate_eq.
    cbn [set_pumpOn soilPct waterOk autoWaterThreshold].
    destruct (decide _ _ _); reflexivity.
  - exact run_trace_cons.
Qed.

Lemma C7_pump_safety_delay_witness :
  delays (trace_of (tick late_env init_state)) = [PUMP_SAFETY_DELAY]
  /\ delays (trace_of (tick dry_reservoir_env init_state)) = []
  /\ delays (trace_of (tick sample_env init_state)) = [].
Proof.
  destruct C7_pump_safety_delay as (Hon & Hoff & _).
  split; [|split].
  - apply (Hon late_env init_state); [reflexivity | vm_compute; reflexivity].
  - apply (Hoff dry_reservoir_env init_state). left. reflexivity.
  - apply (Hoff sample_env init_state). right. vm_compute. discriminate.
Defined.

(** ** The polling cadence *)

Lemma tick_events_app (a b : list Event) :
  tick_events (a ++ b) = (tick_events a ++ tick_events b)%list.
Proof. apply filter_app. Qed.

Lemma sensor_reads_tick_events (tr : list Event) :
  tick_events tr = [] -> sensor_reads tr = [] /\ relay_writes tr = [].
Proof.
  induction tr as [|e tr IH]; [split; reflexivity|].
  unfold tick_events. cbn [filter].
  destruct e; cbn [is_tick_event]; try discriminate; intros H;
    destruct (IH H) as [Hs Hr]; split; assumption.
Qed.

Lemma callback_quiet (topic payload : string) (s : State) :
  tick_events (trace_of (callback topic payload s)) = []
  /\ lastLoopTime (state_of (callback topic payload s)) = lastLoopTime s.
Proof.
  rewrite callback_eq. destruct (accepted topic payload); split; reflexivity.
Qed.

Lemma client_loop_quiet (msgs : list (string * string)) :
  forall s,
    tick_events (trace_of (client_loop msgs s)) = []
    /\ lastLoopTime (state_of (client_loop msgs s)) = lastLoopTime s.
Proof.
  induction msgs as [|[topic payload] rest IH]; intros s.
  - split; reflexivity.
  - cbn [client_loop]. rewrite trace_of_bind, state_of_bind, tick_events_app.
    destruct (callback_quiet topic payload s) as [Ht Hl].
    destruct (IH (state_of (callback topic payload s))) as [Ht' Hl'].
    rewrite Ht, Ht', Hl', Hl. split; reflexivity.
Qed.

Lemma reconnect_quiet (env : Env) (s : State) :
  tick_events (trace_of (reconnect env s)) = [].
Proof.
  unfold reconnect.
  destruct (connectedReconnect env); [reflexivity|].
  destruct (connectResult env); reflexivity.
Qed.

Lemma before_tick_last (env : Env) (s : State) :
  lastLoopTime (before_tick env s) = lastLoopTime s.
Proof.
  rewrite before_tick_eq. apply (client_loop_quiet (inbound env) s).
Qed.

Lemma loop_trace (env : Env) (s : State) :
  trace_of (loop env s) =
  (trace_of ((if negb (connectedLoop env) then reconnect env else ret tt) s)
   ++ trace_of (client_loop (inbound env)
                  (state_of ((if negb (connectedLoop env) then reconnect env
                              else ret tt) s)))
   ++ (if tick_due (Int32.uwrap (millisCheck env))
            (lastLoopTime (before_tick env s))
       then trace_of (tick env (before_tick env s))
       else []))%list.
Proof.
  unfold before_tick, loop, bind, get, state_of, trace_of.
  destruct ((if negb (connectedLoop env) then reconnect env else ret tt) s)
    as [[u1 s1] t1].
  cbn [fst snd].
  destruct (client_loop (inbound env) s1) as [[u2 s2] t2].
  cbn [fst snd].
  destruct (tick_due _ _); [|reflexivity].
  destruct (tick env s2) as [[u3 s3] t3]. reflexivity.
Qed.

Lemma loop_tick_events (env : Env) (s : State) :
  tick_events (trace_of (loop env s)) =
  if tick_due (Int32.uwrap (millisCheck env)) (lastLoopTime s)
  then tick_events (trace_of (tick env (before_tick env s)))
  else [].
Proof.
  rewrite loop_trace, before_tick_last, !tick_events_app.
  assert (H1 : tick_events
                 (trace_of ((if negb (connectedLoop env) then reconnect env
                             else ret tt) s)) = []).
  { destruct (connectedLoop env); cbn [negb];
      [reflexivity | apply reconnect_quiet]. }
  rewrite H1.
  destruct (client_loop_quiet (inbound env)
              (state_of ((if negb (connectedLoop env) then reconnect env
                          else ret tt) s))) as [H2 _].
  rewrite H2. cbn [app].
  destruct (tick_due _ _); reflexivity.
Qed.

Lemma tick_due_spec (now last : Z) :
  tick_due now last = true <-> LOOP_DELAY <= Int32.uwrap (now - last).
Proof.
  unfold tick_due. rewrite Z.geb_leb. apply Z.leb_le.
Qed.

Lemma tick_due_plain (now last : Z) :
  0 <= last <= now -> now < Int32.modulus ->
  (tick_due now last = true <-> LOOP_DELAY <= now - last).
Proof.
  intros H1 H2. rewrite tick_due_spec. unfold Int32.uwrap.
  rewrite Z.mod_small by lia. reflexivity.
Qed.

Lemma uwrap_small (z : Z) : 0 <= z < Int32.modulus -> Int32.uwrap z = z.
Proof. intros H. unfold Int32.uwrap. apply Z.mod_small. exact H. Qed.

Lemma tick_sensor_reads (env : Env) (s : State) :
  sensor_reads (trace_of (tick env s)) = tick_reads
  /\ List.length (relay_writes (trace_of (tick env s))) = 1%nat
  /\ lastLoopTime (state_of (tick env s)) = Int32.uwrap (millisStamp env).
Proof.
  rewrite tick_relay, actuate_relay, tick_trace, tick_state, actuate_state.
  rewrite !sensor_reads_app, actuate_no_reads.
  destruct (report_quiet env
              (set_pumpOn
                 (is_on (decide (soilPct (sampled env s))
                           (waterOk (sampled env s))
                           (autoWaterThreshold (sampled env s))))
                 (sampled env s)))
    as (_ & _ & ->).
  repeat split.
Qed.

(** C9.  [loop] runs a tick exactly when the clock, read as an unsigned
    32-bit counter, is at least [LOOP_DELAY] past the stored time of the
    last tick; otherwise it reads no sensor, writes no pin and publishes
    nothing.  A call that is due runs one tick, however late it is, and
    stores the current clock; a following call that comes less than
    [LOOP_DELAY] after that clock value runs no tick. *)
Theorem C9_poll_interval :
  (forall now last,
      tick_due now last = true <-> LOOP_DELAY <= Int32.uwrap (now - last))
  /\ (forall now last,
         0 <= last <= now -> now < Int32.modulus ->
         (tick_due now last = true <-> LOOP_DELAY <= now - last))
  /\ (forall env s,
         tick_due (Int32.uwrap (millisCheck env)) (lastLoopTime s) = false ->
         state_of (loop env s) = before_tick env s
         /\ tick_events (trace_of (loop env s)) = []
         /\ lastLoopTime (state_of (loop env s)) = lastLoopTime s)
  /\ (forall env s,
         tick_due (Int32.uwrap (millisCheck env)) (lastLoopTime s) = true ->
         state_of (loop env s) = state_of (tick env (before_tick env s))
         /\ tick_events (trace_of (loop env s))
            = tick_events (trace_of (tick env (before_tick env s)))
         /\ sensor_reads (tick_events (trace_of (loop env s))) = tick_reads
         /\ List.length (relay_writes (tick_events (trace_of (loop env s))))
            = 1%nat
         /\ lastLoopTime (state_of (loop env s))
            = Int32.uwrap (millisStamp env))
  /\ (forall env env' s,
         tick_due (Int32.uwrap (millisCheck env)) (lastLoopTime s) = true ->
         0 <= millisStamp env <= millisCheck env' ->
         millisCheck env' < Int32.modulus ->
         millisCheck env' - millisStamp env < LOOP_DELAY ->
         tick_events (trace_of (loop env' (state_of (loop env s)))) = []).
Proof.
  assert (Hidle : forall env s,
     tick_due (Int32.uwrap (millisCheck env)) (lastLoopTime s) = false ->
     state_of (loop env s) = before_tick env s
     /\ tick_events (trace_of (loop env s)) = []
     /\ lastLoopTime (state_of (loop env s)) = lastLoopTime s).
  { intros env s H. rewrite loop_state, loop_tick_events, before_tick_last, H.
    split; [reflexivity|]. split; [reflexivity | apply before_tick_last]. }
  assert (Hrun : forall env s,
     tick_due (Int32.uwrap (millisCheck env)) (lastLoopTime s) = true ->
     state_of (loop env s) = state_of (tick env (before_tick env s))
     /\ tick_events (trace_of (loop env s))
        = tick_events (trace_of (tick env (before_tick env s)))
     /\ sensor_reads (tick_events (trace_of (loop env s))) = tick_reads
     /\ List.length (relay_writes (tick_events (trace_of (loop env s)))) = 1%nat
     /\ lastLoopTime (state_of (loop env s)) = Int32.uwrap (millisStamp env)).
  { intros env s H. rewrite loop_state, loop_tick_events, before_tick_last, H.
    destruct (tick_sensor_reads env (before_tick env s)) as (Hs & Hr & Hl).
    split; [reflexivity|]. split; [reflexivity|].
    rewrite tick_eq in *. cbn [trace_of state_of fst snd] in *.
    rewrite actuate_eq in *.
    destruct (decide _ _ _); cbn [trace_of state_of fst snd] in *;
      [|destruct (waterOk _)]; unfold report in *;
      destruct (connectedPublish env); repeat split; assumption. }
  split; [exact tick_due_spec|]. split; [exact tick_due_plain|].
  split; [exact Hidle|]. split; [exact Hrun|].
  intros env env' s Hdue Hstamp Hmax Hsoon.
  destruct (Hrun env s Hdue) as (_ & _ & _ & _ & Hlast).
  apply Hidle. rewrite Hlast.
  rewrite !uwrap_small by lia.
  destruct (tick_due (millisCheck env') (millisStamp env)) eqn:E;
    [|reflexivity].
  apply tick_due_plain in E; lia.
Qed.

Lemma C9_poll_interval_witness :
  state_of (loop late_env init_state)
  = state_of (tick late_env (before_tick late_env init_state))
  /\ tick_events
       (trace_of (loop soon_env (state_of (loop late_env init_state)))) = [].
Proof.
  destruct C9_poll_interval as (_ & _ & _ & Hrun & Hnext).
  split.
  - apply (Hrun late_env init_state). vm_compute. reflexivity.
  - apply (Hnext late_env soon_env init_state);
      [vm_compute; reflexivity | vm_compute; split; discriminate
      | vm_compute; reflexivity | vm_compute; reflexivity].
Defined.

(** ** Start-up *)

Lemma wifi_wait_returns (statuses : list bool) :
  snd (wifi_wait statuses) = true <-> In true statuses.
Proof.
  induction statuses as [|[] rest IH]; cbn [wifi_wait In].
  - split; [discriminate | intros []].
  - split; [intros _; left; reflexivity | reflexivity].
  - destruct (wifi_wait rest) as [tr returned]. cbn [snd] in *.
    rewrite IH. split; [intros H; right; exact H|].
    intros [H | H]; [discriminate H | exact H].
Qed.

Lemma wifi_wait_delays (statuses : list bool) :
  delays (core_events (fst (wifi_wait statuses)))
  = repeat 500 (failed_polls statuses).
Proof.
  induction statuses as [|[] rest IH]; cbn [wifi_wait failed_polls];
    [reflexivity | reflexivity |].
  destruct (wifi_wait rest) as [tr returned]. cbn [fst] in *.
  cbn [core_events flat_map app delays repeat]. f_equal. exact IH.
Qed.

Lemma wifi_wait_relay (statuses : list bool) :
  relay_writes (core_events (fst (wifi_wait statuses))) = [].
Proof.
  induction statuses as [|[] rest IH]; cbn [wifi_wait];
    [reflexivity | reflexivity |].
  destruct (wifi_wait rest) as [tr returned]. cbn [fst] in *. exact IH.
Qed.

Lemma wifi_wait_cut (pre rest : list bool) :
  wifi_wait (pre ++ true :: rest) = wifi_wait (pre ++ [true]).
Proof.
  induction pre as [|[] pre IH]; cbn [app wifi_wait];
    [reflexivity | reflexivity |].
  rewrite IH. reflexivity.
Qed.

Lemma core_events_app (a b : list BootEvent) :
  core_events (a ++ b) = (core_events a ++ core_events b)%list.
Proof. apply flat_map_app. Qed.

(** X1.  [setup_wifi] leaves its polling loop exactly when some answer of
    [WiFi.status()] is connected; until then it has waited 10 ms and a
    further 500 ms for every poll that found the network down, it prints
    the line that reports the connection only on leaving, and answers
    after the first connected one play no part. *)
Theorem X1_setup_wifi_polls_until_connected (statuses : list bool) :
  (snd (setup_wifi statuses) = true <-> In true statuses)
  /\ delays (core_events (fst (setup_wifi statuses)))
     = 10 :: repeat 500 (failed_polls statuses)
  /\ (In (Core (SerialPrint (line (String "010" "WiFi Connected"))))
        (fst (setup_wifi statuses))
      <-> snd (setup_wifi statuses) = true)
  /\ (forall pre rest,
         setup_wifi (pre ++ true :: rest) = setup_wifi (pre ++ [true])).
Proof.
  split; [|split; [|split]].
  - rewrite <- wifi_wait_returns. unfold setup_wifi.
    destruct (wifi_wait statuses) as [tr returned]. reflexivity.
  - pose proof (wifi_wait_delays statuses) as H. unfold setup_wifi.
    destruct (wifi_wait statuses) as [tr returned]. cbn [fst] in *.
    rewrite core_events_app, delays_app.
    cbn [core_events flat_map app delays].
    fold (core_events tr). fold (delays (core_events tr)). rewrite H.
    destruct returned; cbn; rewrite app_nil_r; reflexivity.
  - unfold setup_wifi.
    assert (Hw : ~ In (Core (SerialPrint
                               (line (String "010" "WiFi Connected"))))
                   (fst (wifi_wait statuses))).
    { induction statuses as [|[] rest IH]; cbn [wifi_wait];
        [intros [] | intros [] |].
      destruct (wifi_wait rest) as [tr returned]. cbn [fst] in *.
      intros [H | [H | H]]; [discriminate H | discriminate H | exact (IH H)]. }
    destruct (wifi_wait statuses) as [tr returned]. cbn [fst snd] in *.
    split.
    + intros H. apply in_app_or in H. destruct H as [H | H].
      * destruct H as [H | [H | [H | [H | H]]]]; try discriminate H.
        contradiction.
      * destruct returned; [reflexivity | destruct H].
    + intros ->. apply in_or_app. right. left. reflexivity.
  - intros pre rest. unfold setup_wifi. rewrite wifi_wait_cut. reflexivity.
Qed.

Lemma setup_trace (displayOk : bool) (statuses : list bool) :
  fst (setup displayOk statuses)
  = ([SerialBegin 115200; DhtBegin;
      SetPinMode RELAY_PIN OUTPUT; SetPinMode WATER_PIN INPUT;
      Core (DigitalWrite RELAY_PIN LOW);
      DisplayBegin OLED_ADDR;
      DisplayBanner (line "System Boot...");
      Core (Delay 10);
      Core (SerialPrint "Connecting to WiFi");
      WifiStation;
      WifiBegin WIFI_SSID WIFI_PASSWORD]
     ++ fst (wifi_wait statuses)
     ++ (if snd (wifi_wait statuses)
         then [Core (SerialPrint (line (String "010" "WiFi Connected")));
               MqttSetServer MQTT_SERVER MQTT_PORT; MqttSetCallback]
         else []))%list
  /\ snd (setup displayOk statuses) = snd (wifi_wait statuses).
Proof.
  unfold setup, setup_wifi.
  destruct (wifi_wait statuses) as [tr returned]. cbn [fst snd].
  destruct displayOk; cbn [negb app]; destruct returned; cbn [app];
    rewrite <- ?app_assoc; split; reflexivity.
Qed.

(** X2.  [setup] drives the relay LOW, after making its pin an output and
    before the first delay, so also before the wait for the network; it
    writes the relay nowhere else, however long that wait lasts and
    whether or not the display starts.  It returns, with the server and
    the message handler set, exactly when the network wait ends. *)
Theorem X2_setup_relay_low_before_network (displayOk : bool)
    (statuses : list bool) :
  relay_writes (core_events (fst (setup displayOk statuses))) = [LOW]
  /\ before_first_delay (fst (setup displayOk statuses))
     = [SerialBegin 115200; DhtBegin;
        SetPinMode RELAY_PIN OUTPUT; SetPinMode WATER_PIN INPUT;
        Core (DigitalWrite RELAY_PIN LOW);
        DisplayBegin OLED_ADDR;
        DisplayBanner (line "System Boot...")]
  /\ (snd (setup displayOk statuses) = true <-> In true statuses)
  /\ (In MqttSetCallback (fst (setup displayOk statuses))
      <-> In true statuses)
  /\ setup displayOk statuses = setup (negb displayOk) statuses.
Proof.
  destruct (setup_trace displayOk statuses) as [Ht Hr].
  split; [|split; [|split; [|split]]].
  - rewrite Ht, !core_events_app, !relay_writes_app, wifi_wait_relay.
    destruct (snd (wifi_wait statuses)); reflexivity.
  - rewrite Ht. reflexivity.
  - rewrite Hr. apply wifi_wait_returns.
  - rewrite Ht, <- wifi_wait_returns.
    assert (Hw : ~ In MqttSetCallback (fst (wifi_wait statuses))).
    { clear. induction statuses as [|[] rest IH]; cbn [wifi_wait];
        [intros [] | intros [] |].
      destruct (wifi_wait rest) as [tr returned]. cbn [fst] in *.
      intros [H | [H | H]]; [discriminate H | discriminate H | exact (IH H)]. }
    split.
    + intros H. apply in_app_or in H. destruct H as [H | H].
      * repeat (destruct H as [H | H]; [discriminate H|]). destruct H.
      * apply in_app_or in H. destruct H as [H | H]; [contradiction|].
        destruct (snd (wifi_wait statuses)); [reflexivity | destruct H].
    + intros ->. apply in_or_app. right. apply in_or_app. right.
      right. right. left. reflexivity.
  - apply injective_projections.
    + rewrite Ht. destruct (setup_trace (negb displayOk) statuses) as [-> _].
      reflexivity.
    + rewrite Hr. destruct (setup_trace (negb displayOk) statuses) as [_ ->].
      reflexivity.
Qed.

(** ** What a call of [loop] does besides the tick *)

Lemma flat_map_nil_on {A B : Type} (f : A -> list B) (l : list A) :
  (forall a, In a l -> f a = []) -> flat_map f l = [].
Proof.
  induction l as [|a l IH]; intros H; [reflexivity|].
  cbn [flat_map]. rewrite (H a (or_introl eq_refl)), IH; [reflexivity|].
  intros b Hb. apply H. right. exact Hb.
Qed.

Lemma flat_map_tick_events {A : Type} (f : Event -> list A) :
  (forall e, is_tick_event e = false -> f e = []) ->
  forall tr, flat_map f (tick_events tr) = flat_map f tr.
Proof.
  intros Hf. induction tr as [|e tr IH]; [reflexivity|].
  unfold tick_events in *. cbn [filter flat_map].
  destruct (is_tick_event e) eqn:E.
  - cbn [flat_map]. rewrite IH. reflexivity.
  - rewrite IH, (Hf e E). reflexivity.
Qed.

Lemma relay_writes_ticks (tr : list Event) :
  relay_writes (tick_events tr) = relay_writes tr.
Proof.
  apply flat_map_tick_events. intros [] H; try reflexivity; discriminate H.
Qed.

Lemma delays_ticks (tr : list Event) : delays (tick_events tr) = delays tr.
Proof.
  apply flat_map_tick_events. intros [] H; try reflexivity; discriminate H.
Qed.

Lemma displays_ticks (tr : list Event) :
  displays (tick_events tr) = displays tr.
Proof.
  apply flat_map_tick_events. intros [] H; try reflexivity; discriminate H.
Qed.

Lemma publishes_ticks (tr : list Event) :
  publishes (tick_events tr) = publishes tr.
Proof.
  apply flat_map_tick_events. intros [] H; try reflexivity; discriminate H.
Qed.

Lemma pin_writes_ticks (tr : list Event) :
  pin_writes (tick_events tr) = pin_writes tr.
Proof.
  apply flat_map_tick_events. intros [] H; try reflexivity; discriminate H.
Qed.

Lemma sensor_reads_ticks (tr : list Event) :
  sensor_reads (tick_events tr) = sensor_reads tr.
Proof.
  induction tr as [|e tr IH]; [reflexivity|].
  unfold tick_events, sensor_reads in *. cbn [filter].
  destruct e; cbn [is_tick_event is_sensor_read filter]; rewrite IH;
    reflexivity.
Qed.

Lemma connects_app (a b : list Event) :
  connects (a ++ b) = (connects a ++ connects b)%list.
Proof. apply flat_map_app. Qed.

Lemma subscribes_app (a b : list Event) :
  subscribes (a ++ b) = (subscribes a ++ subscribes b)%list.
Proof. apply flat_map_app. Qed.

Lemma displays_app (a b : list Event) :
  displays (a ++ b) = (displays a ++ displays b)%list.
Proof. apply flat_map_app. Qed.

Lemma callback_serial (topic payload : string) (s : State) (e : Event) :
  In e (trace_of (callback topic payload s)) -> exists text, e = SerialPrint text.
Proof.
  rewrite callback_eq. destruct (accepted topic payload) as [n|].
  - intros [<- | [<- | []]]; eexists; reflexivity.
  - intros [].
Qed.

Lemma client_loop_serial (msgs : list (string * string)) :
  forall (s : State) (e : Event),
    In e (trace_of (client_loop msgs s)) -> exists text, e = SerialPrint text.
Proof.
  induction msgs as [|[topic payload] rest IH]; intros s e.
  - intros [].
  - cbn [client_loop]. rewrite trace_of_bind. intros H.
    apply in_app_or in H. destruct H as [H | H].
    + exact (callback_serial _ _ _ _ H).
    + exact (IH _ _ H).
Qed.

Lemma client_loop_link (msgs : list (string * string)) (s : State) :
  connects (trace_of (client_loop msgs s)) = []
  /\ subscribes (trace_of (client_loop msgs s)) = [].
Proof.
  split; apply flat_map_nil_on; intros e H;
    destruct (client_loop_serial msgs s e H) as [text ->]; reflexivity.
Qed.

Lemma tick_link (env : Env) (s : State) :
  connects (trace_of (tick env s)) = []
  /\ subscribes (trace_of (tick env s)) = [].
Proof.
  rewrite tick_trace, actuate_eq.
  destruct (decide _ _ _); cbn [trace_of state_of fst snd];
    [|destruct (waterOk _)]; unfold report;
    destruct (connectedPublish env); split; reflexivity.
Qed.

Lemma loop_link (env : Env) (s : State) :
  connects (trace_of (loop env s))
  = (if tries_connect env then [MqttConnect] else [])
  /\ subscribes (trace_of (loop env s))
     = (if gains_connection env then [CONTROL_TOPIC] else []).
Proof.
  rewrite loop_trace, !connects_app, !subscribes_app.
  destruct (client_loop_link (inbound env)
              (state_of ((if negb (connectedLoop env) then reconnect env
                          else ret tt) s))) as [-> ->].
  assert (Ht : connects
                 (if tick_due (Int32.uwrap (millisCheck env))
                       (lastLoopTime (before_tick env s))
                  then trace_of (tick env (before_tick env s)) else []) = []
               /\ subscribes
                    (if tick_due (Int32.uwrap (millisCheck env))
                          (lastLoopTime (before_tick env s))
                     then trace_of (tick env (before_tick env s)) else [])
                  = []).
  { destruct (tick_due _ _); [apply tick_link | split; reflexivity]. }
  destruct Ht as [-> ->]. rewrite !app_nil_r.
  unfold gains_connection, tries_connect, reconnect.
  destruct (connectedLoop env); cbn [negb andb]; [split; reflexivity|].
  destruct (connectedReconnect env); cbn [negb andb]; [split; reflexivity|].
  destruct (connectResult env); split; reflexivity.
Qed.

(** X3.  Over any number of calls, [loop] tries to connect once in each
    call that finds the client disconnected and never otherwise, and it
    subscribes to the control topic once for each try that succeeds and
    to nothing else. *)
Theorem X3_one_subscription_per_connection (envs : list Env) :
  forall s : State,
    connects (trace_of (run envs s))
    = repeat MqttConnect (List.length (filter tries_connect envs))
    /\ subscribes (trace_of (run envs s))
       = repeat CONTROL_TOPIC (List.length (filter gains_connection envs)).
Proof.
  induction envs as [|env rest IH]; intros s; [split; reflexivity|].
  rewrite run_trace_cons, connects_app, subscribes_app.
  destruct (loop_link env s) as [-> ->].
  destruct (IH (state_of (loop env s))) as [-> ->].
  cbn [filter]. unfold gains_connection.
  destruct (tries_connect env); cbn [andb]; [|split; reflexivity].
  destruct (connectResult env); split; reflexivity.
Qed.

Lemma tick_command_eq (env : Env) (s : State) :
  decide (soilPct (sampled env s)) (waterOk (sampled env s))
    (autoWaterThreshold (sampled env s))
  = tick_command env (autoWaterThreshold s).
Proof.
  unfold tick_command, sampled.
  cbn [soilPct waterOk autoWaterThreshold]. reflexivity.
Qed.

Lemma tick_relay_command (env : Env) (s : State) :
  relay_writes (trace_of (tick env s))
  = [level_of (tick_command env (autoWaterThreshold s))].
Proof. rewrite tick_relay, actuate_relay, tick_command_eq. reflexivity. Qed.

Lemma tick_delays_command (env : Env) (s : State) :
  delays (trace_of (tick env s))
  = match tick_command env (autoWaterThreshold s) with
    | PUMP_ON => [PUMP_SAFETY_DELAY]
    | PUMP_OFF => []
    end.
Proof. rewrite tick_delays, actuate_delays, tick_command_eq. reflexivity. Qed.

Lemma tick_state_command (env : Env) (s : State) :
  state_of (tick env s)
  = {| autoWaterThreshold := autoWaterThreshold s;
       lastLoopTime := Int32.uwrap (millisStamp env);
       temp := dhtTemperature env;
       hum := dhtHumidity env;
       soilPct := soil_percent (adcSoil env);
       waterLevelRaw := adcWater env;
       waterOk := water_gate INVERT_WATER_LOGIC (adcWater env);
       pumpOn := is_on (tick_command env (autoWaterThreshold s)) |}.
Proof.
  rewrite tick_state, actuate_state, tick_command_eq.
  unfold sampled, set_pumpOn.
  cbn [autoWaterThreshold lastLoopTime temp hum soilPct waterLevelRaw
       waterOk pumpOn].
  reflexivity.
Qed.

Lemma tick_displays (env : Env) (s : State) :
  displays (trace_of (tick env s))
  = [mkSnapshot (soil_percent (adcSoil env)) (autoWaterThreshold s)
       (dhtTemperature env) (adcWater env)
       (is_on (tick_command env (autoWaterThreshold s)))].
Proof.
  rewrite tick_trace, !displays_app.
  assert (Ha : displays (trace_of (actuate (sampled env s))) = []).
  { rewrite actuate_eq. destruct (decide _ _ _); [reflexivity|].
    destruct (waterOk _); reflexivity. }
  rewrite Ha. rewrite <- tick_state, tick_state_command.
  unfold report.
  cbn [autoWaterThreshold temp soilPct waterLevelRaw pumpOn].
  destruct (connectedPublish env); reflexivity.
Qed.

Lemma tick_publishes_payload (env : Env) (s : State) :
  publishes (trace_of (tick env s))
  = if connectedPublish env then [(DATA_TOPIC, reading_payload env)] else [].
Proof. apply tick_publishes. Qed.

Lemma loop_due_cases (env : Env) (s : State) :
  (tick_due (Int32.uwrap (millisCheck env)) (lastLoopTime s) = true
   /\ state_of (loop env s) = state_of (tick env (before_tick env s))
   /\ tick_events (trace_of (loop env s))
      = tick_events (trace_of (tick env (before_tick env s))))
  \/ (tick_due (Int32.uwrap (millisCheck env)) (lastLoopTime s) = false
      /\ state_of (loop env s) = before_tick env s
      /\ tick_events (trace_of (loop env s)) = []).
Proof.
  rewrite loop_state, loop_tick_events, before_tick_last.
  destruct (tick_due _ _); [left | right]; repeat split.
Qed.

Lemma before_tick_threshold (env : Env) (s : State) :
  before_tick env s = state_of (client_loop (inbound env) s).
Proof. apply before_tick_eq. Qed.

Lemma loop_local_view (env : Env) (s : State) :
  local_view (loop env s)
  = if tick_due (Int32.uwrap (millisCheck env)) (lastLoopTime s)
    then local_view (tick env (before_tick env s))
    else (before_tick env s, [], [], [], []).
Proof.
  unfold local_view.
  rewrite <- (sensor_reads_ticks (trace_of (loop env s))),
    <- (relay_writes_ticks (trace_of (loop env s))),
    <- (delays_ticks (trace_of (loop env s))),
    <- (displays_ticks (trace_of (loop env s))).
  destruct (loop_due_cases env s) as [(-> & -> & ->) | (-> & -> & ->)];
    [|reflexivity].
  rewrite sensor_reads_ticks, relay_writes_ticks, delays_ticks,
    displays_ticks.
  reflexivity.
Qed.

Lemma tick_local_view (env : Env) (s : State) :
  local_view (tick env s)
  = (state_of (tick env s), tick_reads,
     [level_of (tick_command env (autoWaterThreshold s))],
     match tick_command env (autoWaterThreshold s) with
     | PUMP_ON => [PUMP_SAFETY_DELAY]
     | PUMP_OFF => []
     end,
     [mkSnapshot (soil_percent (adcSoil env)) (autoWaterThreshold s)
        (dhtTemperature env) (adcWater env)
        (is_on (tick_command env (autoWaterThreshold s)))]).
Proof.
  unfold local_view.
  rewrite tick_relay_command, tick_delays_command, tick_displays.
  destruct (tick_sensor_reads env s) as [-> _]. reflexivity.
Qed.

(** X4.  What [loop] does to the plant does not depend on the broker:
    with the same clock, samples and delivered messages, the state it
    leaves, the sensors it reads, the relay writes, the delays and the
    display updates are the same for every answer of [client.connected()],
    [client.connect()] and [client.state()]. *)
Theorem X4_plant_control_needs_no_broker
    (c1 c2 c3 c4 : bool) (rc : Z) (env : Env) (s : State) :
  local_view (loop (with_link c1 c2 c3 c4 rc env) s)
  = local_view (loop env s).
Proof.
  rewrite !loop_local_view.
  assert (Hb : before_tick (with_link c1 c2 c3 c4 rc env) s
               = before_tick env s)
    by (rewrite !before_tick_eq; reflexivity).
  rewrite Hb. cbn [with_link millisCheck].
  destruct (tick_due _ _); [|reflexivity].
  rewrite !tick_local_view, !tick_state_command.
  unfold tick_command.
  cbn [with_link millisStamp dhtTemperature dhtHumidity adcSoil adcWater].
  reflexivity.
Qed.

Lemma loop_publishes (env : Env) (s : State) :
  publishes (trace_of (loop env s))
  = if tick_due (Int32.uwrap (millisCheck env)) (lastLoopTime s)
       && connectedPublish env
    then [(DATA_TOPIC, reading_payload env)] else [].
Proof.
  rewrite <- (publishes_ticks (trace_of (loop env s))).
  destruct (loop_due_cases env s) as [(-> & _ & ->) | (-> & _ & ->)];
    [|reflexivity].
  rewrite publishes_ticks, tick_publishes_payload. reflexivity.
Qed.

(** X5.  A call of [loop] publishes at most one message, on the data topic,
    and only when its tick is due and the client reports connected at that
    moment.  Over any sequence of calls every published payload is built
    from the samples of the call that publishes it, so a reading taken
    while disconnected is sent neither then nor later. *)
Theorem X5_publish_only_fresh_readings :
  (forall env s,
      publishes (trace_of (loop env s))
      = if tick_due (Int32.uwrap (millisCheck env)) (lastLoopTime s)
           && connectedPublish env
        then [(DATA_TOPIC, reading_payload env)] else [])
  /\ (forall envs s p,
         In p (publishes (trace_of (run envs s))) ->
         exists env,
           In env envs /\ connectedPublish env = true
           /\ p = (DATA_TOPIC, reading_payload env))
  /\ (forall envs s,
         (List.length (publishes (trace_of (run envs s)))
          <= List.length (filter connectedPublish envs))%nat).
Proof.
  split; [exact loop_publishes|]. split.
  - induction envs as [|env rest IH]; intros s p; [intros []|].
    rewrite run_trace_cons, publishes_app, loop_publishes. intros H.
    apply in_app_or in H. destruct H as [H | H].
    + destruct (tick_due _ _); cbn [andb] in H; [|destruct H].
      destruct (connectedPublish env) eqn:E; [|destruct H].
      destruct H as [<- | []].
      exists env. split; [left; reflexivity|]. split; [exact E | reflexivity].
    + destruct (IH _ _ H) as (env' & Hin & Hc & Hp).
      exists env'. split; [right; exact Hin|]. split; assumption.
  - induction envs as [|env rest IH]; intros s; [apply le_n|].
    rewrite run_trace_cons, publishes_app, loop_publishes, length_app.
    specialize (IH (state_of (loop env s))). cbn [filter].
    destruct (tick_due _ _); cbn [andb];
      destruct (connectedPublish env); cbn [List.length]; lia.
Qed.

Lemma X5_publish_only_fresh_readings_witness :
  exists env,
    In env [offline_env; late_env]
    /\ connectedPublish env = true
    /\ (DATA_TOPIC, "10,23.4,55,1"%string) = (DATA_TOPIC, reading_payload env).
Proof.
  apply (proj1 (proj2 X5_publish_only_fresh_readings)
           [offline_env; late_env] init_state).
  vm_compute. left. reflexivity.
Defined.

Lemma loop_displays (env : Env) (s : State) :
  displays (trace_of (loop env s))
  = if tick_due (Int32.uwrap (millisCheck env)) (lastLoopTime s)
    then [mkSnapshot (soil_percent (adcSoil env))
            (autoWaterThreshold (before_tick env s))
            (dhtTemperature env) (adcWater env)
            (is_on (tick_command env
                      (autoWaterThreshold (before_tick env s))))]
    else [].
Proof.
  rewrite <- (displays_ticks (trace_of (loop env s))).
  destruct (loop_due_cases env s) as [(-> & _ & ->) | (-> & _ & ->)];
    [|reflexivity].
  rewrite displays_ticks, tick_displays. reflexivity.
Qed.

Lemma loop_relay (env : Env) (s : State) :
  relay_writes (trace_of (loop env s))
  = if tick_due (Int32.uwrap (millisCheck env)) (lastLoopTime s)
    then [level_of (tick_command env
                      (autoWaterThreshold (before_tick env s)))]
    else [].
Proof.
  rewrite <- (relay_writes_ticks (trace_of (loop env s))).
  destruct (loop_due_cases env s) as [(-> & _ & ->) | (-> & _ & ->)];
    [|reflexivity].
  rewrite relay_writes_ticks, tick_relay_command. reflexivity.
Qed.

(** X6.  The display is redrawn on ticks only, after the pump branch: the
    snapshot carries the soil percentage, temperature and water level just
    sampled, the threshold in force, and the pump flag as the branch left
    it.  Over any sequence of calls the pump flags shown are, one for one,
    the levels written to the relay. *)
Theorem X6_display_shows_what_the_relay_got :
  (forall env s,
      displays (trace_of (loop env s))
      = if tick_due (Int32.uwrap (millisCheck env)) (lastLoopTime s)
        then [mkSnapshot (soil_percent (adcSoil env))
                (autoWaterThreshold (state_of (loop env s)))
                (dhtTemperature env) (adcWater env)
                (pumpOn (state_of (loop env s)))]
        else [])
  /\ (forall envs s,
         List.map (fun d => level_of_flag (shownPump d))
           (displays (trace_of (run envs s)))
         = relay_writes (trace_of (run envs s))).
Proof.
  split.
  - intros env s. rewrite loop_displays.
    destruct (loop_due_cases env s) as [(-> & -> & _) | (-> & _ & _)];
      [|reflexivity].
    rewrite tick_state_command. reflexivity.
  - induction envs as [|env rest IH]; intros s; [reflexivity|].
    rewrite run_trace_cons, displays_app, relay_writes_app, List.map_app, IH.
    f_equal. rewrite loop_displays, loop_relay.
    destruct (tick_due _ _); [|reflexivity].
    cbn [List.map shownPump]. destruct (tick_command _ _); reflexivity.
Qed.

(** ** The state between ticks *)

Lemma set_threshold_same (s : State) :
  set_autoWaterThreshold (autoWaterThreshold s) s = s.
Proof. destruct s. reflexivity. Qed.

Lemma client_loop_state (msgs : list (string * string)) :
  forall s,
    state_of (client_loop msgs s)
    = set_autoWaterThreshold (last_accepted msgs (autoWaterThreshold s)) s.
Proof.
  induction msgs as [|[topic payload] rest IH]; intros s.
  - cbn [client_loop last_accepted]. symmetry. apply set_threshold_same.
  - cbn [client_loop last_accepted]. rewrite state_of_bind, IH, callback_eq.
    destruct (accepted topic payload) as [n|]; reflexivity.
Qed.

Lemma before_tick_state (env : Env) (s : State) :
  before_tick env s
  = set_autoWaterThreshold
      (last_accepted (inbound env) (autoWaterThreshold s)) s.
Proof. rewrite before_tick_eq. apply client_loop_state. Qed.

Lemma last_cons {A : Type} (x : A) (l : list A) (d : A) :
  last (x :: l) d = last l x.
Proof.
  revert x d. induction l as [|y l IH]; intros x d; [reflexivity|].
  change (last (x :: y :: l) d) with (last (y :: l) d).
  rewrite (IH y d), (IH y x). reflexivity.
Qed.

Lemma last_app {A : Type} (l l' : list A) (d : A) :
  last (l ++ l') d = last l' (last l d).
Proof.
  revert l. induction l' as [|x l' IH]; intros l.
  - rewrite app_nil_r. reflexivity.
  - change (l ++ x :: l')%list with (l ++ [x] ++ l')%list.
    rewrite app_assoc, IH, last_last, last_cons. reflexivity.
Qed.

Lemma loop_pump_flag (env : Env) (s : State) :
  pumpOn (state_of (loop env s))
  = if tick_due (Int32.uwrap (millisCheck env)) (lastLoopTime s)
    then is_on (tick_command env (autoWaterThreshold (before_tick env s)))
    else pumpOn s.
Proof.
  destruct (loop_due_cases env s) as [(-> & -> & _) | (-> & -> & _)].
  - rewrite tick_state_command. reflexivity.
  - rewrite before_tick_state. reflexivity.
Qed.

Lemma loop_pin_writes (env : Env) (s : State) :
  pin_writes (trace_of (loop env s))
  = List.map (fun level => (RELAY_PIN, level))
      (relay_writes (trace_of (loop env s))).
Proof.
  rewrite <- (pin_writes_ticks (trace_of (loop env s))),
    <- (relay_writes_ticks (trace_of (loop env s))).
  destruct (loop_due_cases env s) as [(_ & _ & ->) | (_ & _ & ->)];
    [|reflexivity].
  rewrite pin_writes_ticks, relay_writes_ticks, tick_trace, actuate_eq.
  destruct (decide _ _ _); cbn [trace_of state_of fst snd];
    [|destruct (waterOk _)]; unfold report;
    destruct (connectedPublish env); reflexivity.
Qed.

(** X7.  The pump flag and the relay never disagree: after any sequence of
    calls of [loop] the flag is set exactly when the last level written to
    the relay is HIGH (when nothing was written, the flag is as before),
    also counting the LOW that [setup] writes; and [loop] writes no pin
    but the relay's. *)
Theorem X7_pump_flag_mirrors_relay :
  (forall envs s,
      relay_level (level_of_flag (pumpOn s)) (trace_of (run envs s))
      = level_of_flag (pumpOn (state_of (run envs s))))
  /\ (forall displayOk statuses envs,
         relay_level HIGH
           (core_events (fst (setup displayOk statuses))
            ++ trace_of (run envs init_state))
         = level_of_flag (pumpOn (state_of (run envs init_state))))
  /\ (forall envs s,
         pin_writes (trace_of (run envs s))
         = List.map (fun level => (RELAY_PIN, level))
             (relay_writes (trace_of (run envs s)))).
Proof.
  assert (Hrun : forall envs s,
             relay_level (level_of_flag (pumpOn s)) (trace_of (run envs s))
             = level_of_flag (pumpOn (state_of (run envs s)))).
  { unfold relay_level.
    induction envs as [|env rest IH]; intros s; [reflexivity|].
    rewrite run_trace_cons, run_state_cons, relay_writes_app, last_app,
      <- IH.
    f_equal. rewrite loop_relay, loop_pump_flag.
    destruct (tick_due _ _); [|reflexivity].
    destruct (tick_command _ _); reflexivity. }
  split; [exact Hrun|]. split.
  - intros displayOk statuses envs.
    rewrite <- (Hrun envs init_state). unfold relay_level.
    destruct (setup_trace displayOk statuses) as [Ht _].
    rewrite relay_writes_app, last_app. f_equal.
    rewrite Ht, !core_events_app, !relay_writes_app, wifi_wait_relay.
    destruct (snd (wifi_wait statuses)); reflexivity.
  - induction envs as [|env rest IH]; intros s; [reflexivity|].
    rewrite run_trace_cons, relay_writes_app, List.map_app, <- IH,
      <- loop_pin_writes.
    apply flat_map_app.
Qed.

Lemma loop_samples_ok (env : Env) (s : State) :
  samples_ok s -> samples_ok (state_of (loop env s)).
Proof.
  intros (Hs & Hw & Hp & Hl).
  destruct (loop_due_cases env s) as [(_ & -> & _) | (_ & -> & _)].
  - rewrite tick_state_command. unfold samples_ok.
    cbn [soilPct waterOk waterLevelRaw pumpOn lastLoopTime].
    split; [unfold soil_percent; apply constrain_bounds; lia|].
    split; [reflexivity|]. split.
    + unfold tick_command, decide.
      destruct (water_gate INVERT_WATER_LOGIC (adcWater env));
        [reflexivity | cbn [negb is_on]; discriminate].
    + unfold Int32.uwrap. apply Z.mod_pos_bound. reflexivity.
  - rewrite before_tick_state. unfold samples_ok, set_autoWaterThreshold.
    cbn [soilPct waterOk waterLevelRaw pumpOn lastLoopTime].
    repeat split; try assumption; apply Hs || apply Hl.
Qed.

(** X8.  In every state the sketch can reach, the soil percentage lies in
    [0, 100], the water flag is the comparison of the stored water level
    with [WATER_SENSOR_THRESHOLD], the pump flag is set only when that
    stored level is above the threshold, and the stored tick time fits an
    unsigned 32-bit counter. *)
Theorem X8_reachable_samples_consistent (s : State) :
  reachable s ->
  0 <= soilPct s <= 100
  /\ waterOk s = (waterLevelRaw s >? WATER_SENSOR_THRESHOLD)
  /\ (pumpOn s = true -> waterLevelRaw s > WATER_SENSOR_THRESHOLD)
  /\ 0 <= lastLoopTime s < Int32.modulus.
Proof.
  intros H.
  assert (Hok : samples_ok s).
  { induction H as [|env s H IH].
    - unfold samples_ok. cbn. repeat split; try lia; try discriminate.
    - apply loop_samples_ok. exact IH. }
  destruct Hok as (Hs & Hw & Hp & Hl).
  split; [exact Hs|]. split; [exact Hw|]. split; [|exact Hl].
  intros Hon. specialize (Hp Hon). rewrite Hw in Hp.
  rewrite Z.gtb_ltb in Hp. apply Z.ltb_lt in Hp. lia.
Qed.

Lemma X8_reachable_samples_consistent_witness :
  0 <= soilPct (state_of (run [late_env; soon_env] init_state)) <= 100
  /\ waterOk (state_of (run [late_env; soon_env] init_state))
     = (waterLevelRaw (state_of (run [late_env; soon_env] init_state))
        >? WATER_SENSOR_THRESHOLD)
  /\ (pumpOn (state_of (run [late_env; soon_env] init_state)) = true ->
      waterLevelRaw (state_of (run [late_env; soon_env] init_state))
      > WATER_SENSOR_THRESHOLD)
  /\ 0 <= lastLoopTime (state_of (run [late_env; soon_env] init_state))
     < Int32.modulus.
Proof.
  apply X8_reachable_samples_consistent.
  apply run_reachable. apply reachable_init.
Defined.

Lemma actuate_sampled_trace (env : Env) (s : State) :
  trace_of (actuate (sampled env s))
  = match tick_command env (autoWaterThreshold s) with
    | PUMP_ON =>
        [DigitalWrite RELAY_PIN HIGH;
         SerialPrint (line "PUMP ON: Watering...");
         Delay PUMP_SAFETY_DELAY]
    | PUMP_OFF =>
        DigitalWrite RELAY_PIN LOW
        :: (if water_gate INVERT_WATER_LOGIC (adcWater env) then []
            else [SerialPrint (line "PUMP STOP: NO WATER!")])
    end.
Proof.
  rewrite actuate_eq, tick_command_eq.
  destruct (tick_command _ _); reflexivity.
Qed.

(** X9.  A tick keeps nothing of the previous readings or of the previous
    pump flag: two states with the same threshold give the same state and
    the same effects for the same answers of the outside world. *)
Theorem X9_tick_depends_on_threshold_only (env : Env) (s1 s2 : State) :
  autoWaterThreshold s1 = autoWaterThreshold s2 ->
  tick env s1 = tick env s2.
Proof.
  intros H. rewrite !tick_eq.
  rewrite !actuate_sampled_trace, <- !tick_state, !tick_state_command, H.
  reflexivity.
Qed.

Lemma X9_tick_depends_on_threshold_only_witness :
  tick late_env init_state = tick late_env worn_state.
Proof.
  apply X9_tick_depends_on_threshold_only. reflexivity.
Defined.

(** ** Batches of control messages *)

Lemma last_accepted_app (msgs msgs' : list (string * string)) :
  forall current,
    last_accepted (msgs ++ msgs') current
    = last_accepted msgs' (last_accepted msgs current).
Proof.
  induction msgs as [|[topic payload] rest IH]; intros current;
    [reflexivity|].
  cbn [app last_accepted]. apply IH.
Qed.

Lemma last_accepted_none (msgs : list (string * string)) :
  (forall m, In m msgs -> accepted (fst m) (snd m) = None) ->
  forall current, last_accepted msgs current = current.
Proof.
  induction msgs as [|[topic payload] rest IH]; intros H current;
    [reflexivity|].
  cbn [last_accepted].
  pose proof (H (topic, payload) (or_introl eq_refl)) as E.
  cbn [fst snd] in E. rewrite E.
  apply IH. intros m Hm. apply H. right. exact Hm.
Qed.

(** X10.  Of the messages [client.loop()] hands over in one call, the last
    one that passes the check of [callback] decides the threshold, and
    nothing but the threshold changes.  Messages that fail the check leave
    the state as it was; delivering two batches in turn is delivering
    their concatenation; a message that passes and comes last always
    wins. *)
Theorem X10_last_accepted_message_wins :
  (forall msgs s,
      state_of (client_loop msgs s)
      = set_autoWaterThreshold (last_accepted msgs (autoWaterThreshold s)) s)
  /\ (forall msgs s,
         (forall m, In m msgs -> accepted (fst m) (snd m) = None) ->
         state_of (client_loop msgs s) = s)
  /\ (forall msgs msgs' s,
         state_of (client_loop (msgs ++ msgs') s)
         = state_of (client_loop msgs' (state_of (client_loop msgs s))))
  /\ (forall msgs topic payload n s,
         accepted topic payload = Some n ->
         autoWaterThreshold
           (state_of (client_loop (msgs ++ [(topic, payload)]) s)) = n).
Proof.
  split; [exact client_loop_state|]. split; [|split].
  - intros msgs s H. rewrite client_loop_state, (last_accepted_none msgs H).
    apply set_threshold_same.
  - intros msgs msgs' s. rewrite !client_loop_state, last_accepted_app.
    reflexivity.
  - intros msgs topic payload n s H.
    rewrite client_loop_state, last_accepted_app.
    cbn [last_accepted set_autoWaterThreshold autoWaterThreshold].
    rewrite H. reflexivity.
Qed.

Lemma X10_last_accepted_message_wins_witness :
  state_of (client_loop [(DATA_TOPIC, "45"); (CONTROL_TOPIC, "0")] worn_state)
  = worn_state
  /\ autoWaterThreshold
       (state_of (client_loop ([(CONTROL_TOPIC, "20")]
                               ++ [(CONTROL_TOPIC, "45")]) worn_state))
     = 45.
Proof.
  destruct X10_last_accepted_message_wins as (_ & Hnone & _ & Hlast).
  split.
  - apply Hnone. intros m [<- | [<- | []]]; reflexivity.
  - apply Hlast. reflexivity.
Defined.

(** X11.  A threshold that arrives during a call of [loop] is already the
    one the tick of that call decides with, shows and keeps: messages are
    handled before the clock is looked at. *)
Theorem X11_new_threshold_used_by_same_call (env : Env) (s : State) :
  tick_due (Int32.uwrap (millisCheck env)) (lastLoopTime s) = true ->
  relay_writes (trace_of (loop env s))
  = [level_of (tick_command env
                 (last_accepted (inbound env) (autoWaterThreshold s)))]
  /\ List.map shownThreshold (displays (trace_of (loop env s)))
     = [last_accepted (inbound env) (autoWaterThreshold s)]
  /\ autoWaterThreshold (state_of (loop env s))
     = last_accepted (inbound env) (autoWaterThreshold s).
Proof.
  intros Hdue.
  rewrite loop_relay, loop_displays, Hdue, before_tick_state.
  destruct (loop_due_cases env s) as [(_ & -> & _) | (Hd & _ & _)];
    [|congruence].
  rewrite tick_state_command, before_tick_state.
  repeat split.
Qed.

Lemma X11_new_threshold_used_by_same_call_witness :
  relay_writes (trace_of (loop retune_due_env init_state)) = [HIGH]
  /\ relay_writes
       (trace_of (loop (at_clock 7000 sample_env) init_state)) = [LOW].
Proof.
  destruct (X11_new_threshold_used_by_same_call retune_due_env init_state)
    as (Hr & _); [vm_compute; reflexivity|].
  destruct (X11_new_threshold_used_by_same_call (at_clock 7000 sample_env)
              init_state) as (Hr' & _); [vm_compute; reflexivity|].
  split.
  - rewrite Hr. vm_compute. reflexivity.
  - rewrite Hr'. vm_compute. reflexivity.
Defined.

(** ** The clock across its rollover *)

Lemma tick_due_elapsed (last elapsed : Z) :
  0 <= elapsed < Int32.modulus ->
  (tick_due (Int32.uwrap (last + elapsed)) last = true
   <-> LOOP_DELAY <= elapsed).
Proof.
  intros He. rewrite tick_due_spec. unfold Int32.uwrap.
  rewrite Zminus_mod_idemp_l.
  replace (last + elapsed - last) with elapsed by ring.
  rewrite Z.mod_small by exact He. reflexivity.
Qed.

(** X12.  The interval check measures the time since the last tick
    correctly across the rollover of the 32-bit millisecond counter: when
    [elapsed] milliseconds, fewer than 2^32, have passed since the stored
    tick time, [loop] runs its tick exactly when [elapsed] is at least
    [LOOP_DELAY], wherever the counter stands. *)
Theorem X12_interval_survives_rollover (env : Env) (s : State)
    (elapsed : Z) :
  0 <= elapsed < Int32.modulus ->
  millisCheck env = lastLoopTime s + elapsed ->
  (sensor_reads (trace_of (loop env s)) = tick_reads
   <-> LOOP_DELAY <= elapsed)
  /\ (tick_events (trace_of (loop env s)) = [] <-> elapsed < LOOP_DELAY).
Proof.
  intros He Hnow.
  pose proof (tick_due_elapsed (lastLoopTime s) elapsed He) as Hdue.
  rewrite <- Hnow in Hdue.
  rewrite <- (sensor_reads_ticks (trace_of (loop env s))).
  destruct (loop_due_cases env s) as [(Hd & _ & ->) | (Hd & _ & ->)].
  - destruct (tick_sensor_reads env (before_tick env s)) as [Hs _].
    rewrite sensor_reads_ticks, Hs.
    assert (Hge : LOOP_DELAY <= elapsed) by (apply Hdue; exact Hd).
    split; [split; [intros _; exact Hge | reflexivity]|].
    split; [|lia].
    intros Hnil.
    apply (f_equal sensor_reads) in Hnil.
    rewrite sensor_reads_ticks, Hs in Hnil. discriminate Hnil.
  - assert (Hlt : elapsed < LOOP_DELAY).
    { destruct (Z.lt_ge_cases elapsed LOOP_DELAY) as [H | H]; [exact H|].
      apply Hdue in H. congruence. }
    split; [split; [discriminate | lia]|].
    split; [intros _; exact Hlt | reflexivity].
Qed.

Lemma X12_interval_survives_rollover_witness :
  (sensor_reads
     (trace_of (loop (at_clock (Int32.modulus + 1500) sample_env)
                  near_rollover_state)) = tick_reads
   <-> LOOP_DELAY <= 2000)
  /\ (tick_events
        (trace_of (loop (at_clock (Int32.modulus + 1500) sample_env)
                     near_rollover_state)) = []
      <-> 2000 < LOOP_DELAY).
Proof.
  apply (X12_interval_survives_rollover
           (at_clock (Int32.modulus + 1500) sample_env)
           near_rollover_state 2000).
  - vm_compute. split; [discriminate | reflexivity].
  - vm_compute. reflexivity.
Defined.

(** ** Drier soil *)

Lemma constrain_mono (a b low high : Z) :
  a <= b -> Arduino.constrain a low high <= Arduino.constrain b low high
            \/ high < low.
Proof.
  intros Hab. unfold Arduino.constrain.
  destruct (a <? low) eqn:Ea; destruct (b <? low) eqn:Eb;
    destruct (a >? high) eqn:Ea'; destruct (b >? high) eqn:Eb';
    rewrite ?Z.gtb_ltb in *;
    repeat match goal with
           | H : (_ <? _) = true |- _ => apply Z.ltb_lt in H
           | H : (_ <? _) = false |- _ => apply Z.ltb_ge in H
           end; lia.
Qed.

Lemma soil_percent_antitone (r1 r2 : Z) :
  Int32.in_range ((r1 - DRY_VAL) * 100) ->
  Int32.in_range ((r2 - DRY_VAL) * 100) ->
  r1 <= r2 -> soil_percent r2 <= soil_percent r1.
Proof.
  intros H1 H2 Hle. unfold soil_percent.
  rewrite !map_soil_exact by assumption.
  assert (Hq : Z.quot ((DRY_VAL - r2) * 100) (DRY_VAL - WET_VAL)
               <= Z.quot ((DRY_VAL - r1) * 100) (DRY_VAL - WET_VAL)).
  { apply Z.quot_le_mono; unfold DRY_VAL, WET_VAL; lia. }
  destruct (constrain_mono _ _ 0 100 Hq) as [H | H]; [exact H | lia].
Qed.

(** X13.  Within the range where the 32-bit product of [map] does not
    overflow, which holds every 16-bit sample, a higher raw soil value
    (drier soil) never gives a higher soil percentage; so if a tick writes
    the relay HIGH, the tick from the same state on the same answers of
    the outside world but a drier soil sample also writes the relay HIGH,
    waits the safety delay and leaves the pump flag set. *)
Theorem X13_drier_soil_keeps_pump_on (r1 r2 : Z) (env : Env) (s : State) :
  Int32.in_range ((r1 - DRY_VAL) * 100) ->
  Int32.in_range ((r2 - DRY_VAL) * 100) ->
  r1 <= r2 ->
  soil_percent r2 <= soil_percent r1
  /\ (relay_writes (trace_of (tick (with_soil r1 env) s)) = [HIGH] ->
      relay_writes (trace_of (tick (with_soil r2 env) s)) = [HIGH]
      /\ delays (trace_of (tick (with_soil r2 env) s)) = [PUMP_SAFETY_DELAY]
      /\ pumpOn (state_of (tick (with_soil r2 env) s)) = true)
  /\ (forall r, 0 <= r <= 65535 -> Int32.in_range ((r - DRY_VAL) * 100)).
Proof.
  intros H1 H2 Hle.
  pose proof (soil_percent_antitone r1 r2 H1 H2 Hle) as Hs.
  split; [exact Hs|]. split.
  - rewrite !tick_relay_command, tick_delays_command, tick_state_command.
    cbn [pumpOn]. unfold tick_command. cbn [with_soil adcSoil adcWater].
    unfold decide.
    destruct (water_gate INVERT_WATER_LOGIC (adcWater env)); cbn [negb];
      [|discriminate].
    destruct (soil_percent r1 <? autoWaterThreshold s) eqn:E1;
      [|discriminate].
    apply Z.ltb_lt in E1. intros _.
    assert (E2 : (soil_percent r2 <? autoWaterThreshold s) = true)
      by (apply Z.ltb_lt; lia).
    rewrite E2. repeat split; reflexivity.
  - intros r Hr. unfold DRY_VAL. int32_range.
Qed.

Lemma X13_drier_soil_keeps_pump_on_witness :
  soil_percent 3805 <= soil_percent 3300
  /\ relay_writes (trace_of (tick (with_soil 3300 sample_env) init_state))
     = [HIGH]
  /\ relay_writes (trace_of (tick (with_soil 3805 sample_env) init_state))
     = [HIGH].
Proof.
  assert (H1 : Int32.in_range ((3300 - DRY_VAL) * 100))
    by (vm_compute; split; discriminate).
  assert (H2 : Int32.in_range ((3805 - DRY_VAL) * 100))
    by (vm_compute; split; discriminate).
  assert (H3 : 3300 <= 3805) by lia.
  assert (Hon : relay_writes
                  (trace_of (tick (with_soil 3300 sample_env) init_state))
                = [HIGH]) by (vm_compute; reflexivity).
  destruct (X13_drier_soil_keeps_pump_on 3300 3805 sample_env init_state
              H1 H2 H3) as (Hs & Ht & _).
  split; [exact Hs|]. split; [exact Hon|].
  destruct (Ht Hon) as (Hr & _ & _). exact Hr.
Defined.

(** ** Reading the payload back *)

Lemma of_int_inj (n m : Z) : WString.of_int n = WString.of_int m -> n = m.
Proof.
  unfold WString.of_int. intros H.
  apply DecimalZ.to_int_inj.
  assert (Hnil : forall z, Z.to_int z <> Decimal.Pos Decimal.Nil
                           /\ Z.to_int z <> Decimal.Neg Decimal.Nil).
  { intros [|p|p]; cbn [Z.to_int]; split; try discriminate;
      intros [= E]; exact (DecimalPos.Unsigned.to_uint_nonnil p E). }
  destruct (Hnil n) as [Hn1 Hn2]. destruct (Hnil m) as [Hm1 Hm2].
  pose proof (NilZero.isi (Z.to_int n) Hn1 Hn2) as En.
  pose proof (NilZero.isi (Z.to_int m) Hm1 Hm2) as Em.
  rewrite H in En. rewrite En in Em. injection Em as Em. exact Em.
Qed.

(** X14.  The payload can be read back: splitting it at the commas gives
    four fields, and two payloads that agree were built from the same soil
    percentage and the same water flag, and from temperatures and
    humidities that are written the same. *)
Theorem X14_payload_determines_readings
    (soil soil' : Z) (t t' h h' : float) (ok ok' : bool) :
  telemetry soil t h ok = telemetry soil' t' h' ok' ->
  soil = soil' /\ ok = ok'
  /\ WString.of_float t 1 = WString.of_float t' 1
  /\ WString.of_float h 0 = WString.of_float h' 0.
Proof.
  intros H. apply (f_equal fields) in H.
  rewrite !telemetry_fields in H.
  injection H as Hsoil Ht Hh Hok.
  split; [apply of_int_inj; exact Hsoil|].
  split; [|split; assumption].
  destruct ok, ok'; try reflexivity; discriminate Hok.
Qed.

Lemma X14_payload_determines_readings_witness :
  42 = 42 /\ true = true
  /\ WString.of_float float_23_4 1 = WString.of_float double_23_4 1
  /\ WString.of_float 55%float 0 = WString.of_float 55%float 0.
Proof.
  apply (X14_payload_determines_readings 42 42 float_23_4 double_23_4
           55%float 55%float true true).
  vm_compute. reflexivity.
Defined.

(** ** How often the relay is written *)

Lemma loop_last_time (env : Env) (s : State) :
  lastLoopTime (state_of (loop env s))
  = if tick_due (Int32.uwrap (millisCheck env)) (lastLoopTime s)
    then Int32.uwrap (millisStamp env)
    else lastLoopTime s.
Proof.
  destruct (loop_due_cases env s) as [(-> & -> & _) | (-> & -> & _)].
  - rewrite tick_state_command. reflexivity.
  - apply before_tick_last.
Qed.

(** X15.  While the millisecond counter neither runs backwards nor rolls
    over, the relay is written at most once per [LOOP_DELAY]: over any
    sequence of calls of [loop], [LOOP_DELAY] times the number of relay
    writes is at most the time between the stored tick time before and
    after, however often [loop] is called. *)
Theorem X15_relay_written_once_per_interval
    (envs : list Env) (s : State) (t : Z) :
  0 <= lastLoopTime s <= t -> clock_ok t envs ->
  LOOP_DELAY * Z.of_nat (List.length (relay_writes (trace_of (run envs s))))
  <= lastLoopTime (state_of (run envs s)) - lastLoopTime s.
Proof.
  revert s t. induction envs as [|env rest IH]; intros s t Hs Hc.
  - cbn. lia.
  - destruct Hc as (Hck & Hmax & Hrest).
    rewrite run_trace_cons, run_state_cons, relay_writes_app, length_app,
      Nat2Z.inj_add.
    pose proof (loop_last_time env s) as Hl.
    pose proof (loop_relay env s) as Hr.
    rewrite (uwrap_small (millisCheck env)) in Hl, Hr by lia.
    rewrite (uwrap_small (millisStamp env)) in Hl by lia.
    specialize (IH (state_of (loop env s)) (millisStamp env)).
    rewrite Hl in IH. rewrite Hr.
    destruct (tick_due (millisCheck env) (lastLoopTime s)) eqn:Hd;
      cbn [List.length].
    + apply tick_due_plain in Hd; [|lia|lia].
      specialize (IH ltac:(lia) Hrest). lia.
    + specialize (IH ltac:(lia) Hrest). lia.
Qed.

Lemma X15_relay_written_once_per_interval_witness :
  LOOP_DELAY
  * Z.of_nat (List.length
                (relay_writes
                   (trace_of (run [sample_env; late_env; soon_env]
                                init_state))))
  <= lastLoopTime (state_of (run [sample_env; late_env; soon_env] init_state))
     - lastLoopTime init_state.
Proof.
  apply (X15_relay_written_once_per_interval
           [sample_env; late_env; soon_env] init_state 0).
  - cbn. lia.
  - cbn [clock_ok sample_env late_env soon_env millisCheck millisStamp].
    unfold Int32.modulus. lia.
Defined.
